(** * Threadstorm: repository dump generator ([repo_scanner.py])

    A shallow embedding of the classifier, the sanitizer, the reader, the
    tree builder, the content collector and the two exporters, followed by
    the properties established about them. *)

From Stdlib.Strings Require Import String Ascii Byte.
From Stdlib Require Import List Bool Arith NArith Lia.
From Stdlib Require Import Permutation Sorted DecimalString.
Import ListNotations.

Set Implicit Arguments.
Unset Strict Implicit.

(** ** Python text *)

(** A Python [str] is a sequence of Unicode code points. *)
Definition char := N.
Definition str := list char.

(** An ASCII literal of the source, as the [str] it denotes. *)
Definition lit (s : string) : str :=
  map N_of_ascii (list_ascii_of_string s).

Definition char_eqb (a b : char) : bool := N.eqb a b.

Fixpoint str_eqb (a b : str) : bool :=
  match a, b with
  | [], [] => true
  | x :: a', y :: b' => char_eqb x y && str_eqb a' b'
  | _, _ => false
  end.

(** [x in S] for a set (or list) of strings. *)
Definition str_in (x : str) (S : list str) : bool := existsb (str_eqb x) S.

(** [a < b] on [str]: lexicographic on code points. *)
Fixpoint str_lt (a b : str) : bool :=
  match a, b with
  | _, [] => false
  | [], _ :: _ => true
  | x :: a', y :: b' => if char_eqb x y then str_lt a' b' else N.ltb x y
  end.

Definition in_range (lo hi c : N) : bool := N.leb lo c && N.leb c hi.

Definition DOT : char := 46%N.

(** [str.lower()] on ASCII text: A-Z become a-z. *)
Definition ascii_lower_char (c : char) : char :=
  if in_range 65%N 90%N c then (c + 32)%N else c.
Definition ascii_lower (s : str) : str := map ascii_lower_char s.
Definition is_ascii (s : str) : bool := forallb (fun c => N.ltb c 128%N) s.

(** [s.startswith('.')] *)
Definition startswith_dot (s : str) : bool :=
  match s with
  | c :: _ => char_eqb c DOT
  | [] => false
  end.

(** [s.rfind(c)], [None] standing for -1. *)
Fixpoint rfind (c : char) (s : str) : option nat :=
  match s with
  | [] => None
  | x :: r =>
      match rfind c r with
      | Some i => Some (S i)
      | None => if char_eqb x c then Some 0 else None
      end
  end.

(** [PurePath.suffix] of a path whose final component is [name]
    (pathlib of Python 3.6 to 3.13):
    [i = name.rfind('.'); name[i:] if 0 < i < len(name) - 1 else '']. *)
Definition suffix (name : str) : str :=
  match rfind DOT name with
  | Some i =>
      if Nat.ltb 0 i && Nat.ltb i (length name - 1) then skipn i name else []
  | None => []
  end.

(** What the program takes from the Python runtime and the platform. *)
Class Runtime := {
  (** [str.lower]; the Unicode case tables are the runtime's. *)
  lower : str -> str;
  lower_ascii : forall s, is_ascii s = true -> lower s = ascii_lower s;
  (** [os.sep], one character. *)
  sep : char;
  (** [str(e)] of the [NotADirectoryError] raised by [iterdir] on a path
      that is not a directory, by the name of the path. *)
  strerror_notdir : str -> str
}.

(** ** Configuration tables *)

Definition TEXT_EXTENSIONS : list str := map lit
  [ ".py"; ".js"; ".jsx"; ".ts"; ".tsx"; ".html"; ".css"; ".scss"; ".sass";
    ".json"; ".xml"; ".yaml"; ".yml"; ".txt"; ".md"; ".markdown"; ".rst";
    ".c"; ".cpp"; ".h"; ".hpp"; ".java"; ".go"; ".rs"; ".php"; ".rb";
    ".sh"; ".bash"; ".sql"; ".r"; ".m"; ".swift"; ".kt"; ".scala";
    ".vue"; ".svelte"; ".conf"; ".config"; ".ini"; ".toml"; ".env";
    ".log"; ".csv"; ".tsv"; ".gitignore"; ".dockerignore"; "Dockerfile";
    "Makefile"; ".editorconfig"; "requirements.txt"; "package.json" ]%string.

Definition BINARY_EXTENSIONS : list str := map lit
  [ ".png"; ".jpg"; ".jpeg"; ".gif"; ".bmp"; ".ico"; ".svg"; ".webp";
    ".mp4"; ".avi"; ".mov"; ".mkv"; ".mp3"; ".wav"; ".flac";
    ".zip"; ".tar"; ".gz"; ".rar"; ".7z"; ".bz2";
    ".exe"; ".dll"; ".so"; ".dylib"; ".bin";
    ".pdf"; ".doc"; ".docx"; ".xls"; ".xlsx"; ".ppt"; ".pptx";
    ".pyc"; ".pyo"; ".class"; ".o"; ".obj";
    ".db"; ".sqlite"; ".sqlite3" ]%string.

Definition SKIP_DIRECTORIES : list str := map lit
  [ ".git"; ".svn"; ".hg"; "__pycache__"; "node_modules";
    ".venv"; "venv"; "env"; ".env"; "virtualenv";
    ".idea"; ".vscode"; ".vs"; ".pytest_cache"; ".mypy_cache";
    "dist"; "build"; ".eggs"; "*.egg-info"; "target" ]%string.

(** The set literal of [should_include_file]. *)
Definition CONVENTIONAL_NAMES : list str := map lit
  [ "makefile"; "dockerfile"; "readme"; "license"; "changelog" ]%string.

(** Tree structure characters: U+251C, U+2514, U+2502, U+2500. *)
Definition TREE_BRANCH : str := [9500; 9472; 9472; 32]%N.
Definition TREE_LAST : str := [9492; 9472; 9472; 32]%N.
Definition TREE_VERTICAL : str := [9474; 32; 32; 32]%N.
Definition TREE_SPACE : str := [32; 32; 32; 32]%N.

(** ** Sanitizer *)

(** [text.replace(old, new)] for a one-character [old]. *)
Definition replace_char (old : char) (new : str) (text : str) : str :=
  flat_map (fun c => if char_eqb c old then new else [c]) text.

(** [re.sub(cls, repl, text)] for a character class [cls]. *)
Definition re_sub_class (cls : char -> bool) (repl : str) (text : str) : str :=
  flat_map (fun c => if cls c then repl else [c]) text.

(** The class [[\x00-\x08\x0B\x0C\x0E-\x1F\x7F-\x9F]]. *)
Definition xml_illegal (c : char) : bool :=
  (in_range 0x00 0x08 c || char_eqb c 0x0B || char_eqb c 0x0C
   || in_range 0x0E 0x1F c || in_range 0x7F 0x9F c)%N.

Definition sanitize_xml_content (text : str) : str :=
  match text with
  | [] => text
  | _ =>
      let text := replace_char 0x00%N [] text in
      let text := re_sub_class xml_illegal [] text in
      text
  end.

(** The sanitizer in the words of its contract: a control character is a
    code point of C0, DEL or C1; the sanitizer drops the null character and
    every control character other than tab, line feed and carriage return. *)
Definition is_control (c : char) : bool :=
  (N.leb c 0x1F || in_range 0x7F 0x9F c)%N.
Definition dropped (c : char) : bool :=
  (char_eqb c 0
   || (is_control c && negb (char_eqb c 9 || char_eqb c 10 || char_eqb c 13)))%N.
Definition sanitize_spec (text : str) : str :=
  filter (fun c => negb (dropped c)) text.

(** ** Classifier *)

Section Classifier.
Context {R : Runtime}.

(** [file_name] is [file_path.name]; [st_size] is the outcome of
    [file_path.stat().st_size], [None] when [stat] raises [OSError]. *)
Definition should_include_file (file_name : str) (st_size : option N) : bool :=
  let ext := lower (suffix file_name) in
  let name := lower file_name in
  if str_in ext BINARY_EXTENSIONS then false
  else if str_in ext TEXT_EXTENSIONS then true
  else if negb (Nat.ltb 0 (length ext)) && str_in name CONVENTIONAL_NAMES then true
  else
    match st_size with
    | Some size =>
        if (10 * 1024 * 1024 <? size)%N
        then false   (* [return False] in the [try] *)
        else false   (* the final [return False] *)
    | None => false  (* [except OSError: return False] *)
    end.

Definition should_skip_directory (dir_name : str) : bool :=
  str_in dir_name SKIP_DIRECTORIES || startswith_dot dir_name.

End Classifier.

(** ** Reader *)

(** The candidate encodings of [read_file_content]. *)
Inductive encoding := utf_8 | utf_8_sig | latin_1 | cp1252 | iso_8859_1.

Definition encodings : list encoding :=
  [utf_8; utf_8_sig; latin_1; cp1252; iso_8859_1].

Definition continuation (b : N) : bool := in_range 0x80 0xBF b.

(** Strict UTF-8: shortest forms only, no surrogates, at most U+10FFFF;
    [None] is [UnicodeDecodeError]. *)
Fixpoint utf_8_decode (data : list N) : option str :=
  match data with
  | [] => Some []
  | b0 :: t0 =>
      if (b0 <? 0x80)%N then option_map (cons b0) (utf_8_decode t0)
      else if in_range 0xC2 0xDF b0 then
        match t0 with
        | b1 :: t1 =>
            if continuation b1
            then option_map (cons ((b0 - 0xC0) * 64 + (b1 - 0x80))%N)
                            (utf_8_decode t1)
            else None
        | _ => None
        end
      else if in_range 0xE0 0xEF b0 then
        match t0 with
        | b1 :: b2 :: t2 =>
            if in_range (if (b0 =? 0xE0)%N then 0xA0 else 0x80)
                        (if (b0 =? 0xED)%N then 0x9F else 0xBF) b1
               && continuation b2
            then option_map
                   (cons ((b0 - 0xE0) * 4096 + (b1 - 0x80) * 64 + (b2 - 0x80))%N)
                   (utf_8_decode t2)
            else None
        | _ => None
        end
      else if in_range 0xF0 0xF4 b0 then
        match t0 with
        | b1 :: b2 :: b3 :: t3 =>
            if in_range (if (b0 =? 0xF0)%N then 0x90 else 0x80)
                        (if (b0 =? 0xF4)%N then 0x8F else 0xBF) b1
               && continuation b2 && continuation b3
            then option_map
                   (cons ((b0 - 0xF0) * 262144 + (b1 - 0x80) * 4096
                          + (b2 - 0x80) * 64 + (b3 - 0x80))%N)
                   (utf_8_decode t3)
            else None
        | _ => None
        end
      else None
  end.

(** UTF-8 with an optional leading byte order mark, which is dropped. *)
Definition utf_8_sig_decode (data : list N) : option str :=
  match data with
  | b0 :: b1 :: b2 :: rest =>
      if ((b0 =? 0xEF) && (b1 =? 0xBB) && (b2 =? 0xBF))%N
      then utf_8_decode rest
      else utf_8_decode data
  | _ => utf_8_decode data
  end.

(** Latin-1 maps every byte to the code point of the same number. *)
Definition latin_1_decode (data : list N) : option str := Some data.

(** Windows-1252 as the Python codec has it: 0x80 to 0x9F are remapped and
    five of them are undefined. *)
Definition cp1252_char (b : N) : option char :=
  match b with
  | 0x80 => Some 0x20AC | 0x81 => None        | 0x82 => Some 0x201A
  | 0x83 => Some 0x0192 | 0x84 => Some 0x201E | 0x85 => Some 0x2026
  | 0x86 => Some 0x2020 | 0x87 => Some 0x2021 | 0x88 => Some 0x02C6
  | 0x89 => Some 0x2030 | 0x8A => Some 0x0160 | 0x8B => Some 0x2039
  | 0x8C => Some 0x0152 | 0x8D => None        | 0x8E => Some 0x017D
  | 0x8F => None        | 0x90 => None        | 0x91 => Some 0x2018
  | 0x92 => Some 0x2019 | 0x93 => Some 0x201C | 0x94 => Some 0x201D
  | 0x95 => Some 0x2022 | 0x96 => Some 0x2013 | 0x97 => Some 0x2014
  | 0x98 => Some 0x02DC | 0x99 => Some 0x2122 | 0x9A => Some 0x0161
  | 0x9B => Some 0x203A | 0x9C => Some 0x0153 | 0x9D => None
  | 0x9E => Some 0x017E | 0x9F => Some 0x0178
  | _ => Some b
  end%N.

Fixpoint cp1252_decode (data : list N) : option str :=
  match data with
  | [] => Some []
  | b :: rest =>
      match cp1252_char b, cp1252_decode rest with
      | Some c, Some s => Some (c :: s)
      | _, _ => None
      end
  end.

(** [bytes.decode(encoding, errors='strict')]. *)
Definition decode (enc : encoding) (data : list byte) : option str :=
  let data := map Byte.to_N data in
  match enc with
  | utf_8 => utf_8_decode data
  | utf_8_sig => utf_8_sig_decode data
  | latin_1 | iso_8859_1 => latin_1_decode data
  | cp1252 => cp1252_decode data
  end.

(** Text mode with the default [newline=None]: on input a carriage return,
    with the line feed that follows it if there is one, becomes a line feed. *)
Fixpoint universal_newlines (s : str) : str :=
  match s with
  | [] => []
  | 13%N :: 10%N :: r => 10%N :: universal_newlines r
  | 13%N :: r => 10%N :: universal_newlines r
  | c :: r => c :: universal_newlines r
  end.

(** What can be got from a regular file: [inl msg] when opening or reading
    it raises an exception [e] other than a decoding error, [str(e) = msg];
    [inr data] when its bytes are [data]. *)
Definition file_data : Type := str + list byte.

(** The three ways out of
    [with open(file_path, 'r', encoding=encoding, errors='strict') as f:
       content = f.read()]. *)
Inductive attempt :=
| Decoded (content : str)
| UnicodeDecodeError
| Raised (e : str).

Definition open_read (file : file_data) (enc : encoding) : attempt :=
  match file with
  | inl msg => Raised msg
  | inr data =>
      match decode enc data with
      | Some text => Decoded (universal_newlines text)
      | None => UnicodeDecodeError
      end
  end.

Definition UNDECODABLE : str :=
  lit "[Error: Unable to decode file with supported encodings]".

Section Reader.
(** The path is given by what opening and reading it does under each
    encoding. *)
Variable file_path : encoding -> attempt.

(** The [for encoding in encodings] loop, from the encodings left. *)
Fixpoint read_loop (encs : list encoding) : str :=
  match encs with
  | [] => UNDECODABLE
  | enc :: rest =>
      match file_path enc with
      | Decoded content => sanitize_xml_content content
      | UnicodeDecodeError => read_loop rest
      | Raised e => lit "[Error reading file: " ++ e ++ lit "]"
      end
  end.

Definition read_file_content : str := read_loop encodings.
End Reader.

(** ** File system *)

(** The exceptions the traversals tell apart: [PermissionError] and every
    other [Exception], each with its [str(e)]. *)
Inductive exn :=
| PermissionError (msg : str)
| OtherError (msg : str).

(** A path and what the file system holds under it during a run.
    [File]: a regular file, with the outcome of [stat] ([None]: [OSError])
    and of reading it.  [Dir]: a directory with the entries [iterdir]
    yields, in the order of the operating system.  [NoList]: a directory
    whose enumeration raises, be it in [iterdir] or in [is_dir] on one of
    its entries while they are sorted.  [Other]: neither a regular file nor
    a directory (a socket, a broken link); [is_file] holds of [File] alone. *)
#[local] Unset Elimination Schemes.
Inductive entry :=
| File (name : str) (st_size : option N) (data : file_data)
| Dir (name : str) (listing : list entry)
| NoList (name : str) (e : exn)
| Other (name : str).
#[local] Set Elimination Schemes.

Definition name (x : entry) : str :=
  match x with
  | File n _ _ | Dir n _ | NoList n _ | Other n => n
  end.

Definition is_dir (x : entry) : bool :=
  match x with
  | Dir _ _ | NoList _ _ => true
  | _ => false
  end.

(** ** Sorting *)

Section Sorting.
Variables (A K : Type) (key : A -> K) (lt : K -> K -> bool).

(** [x] goes before the first element whose key is not below its own. *)
Fixpoint insert_sorted (x : A) (l : list A) : list A :=
  match l with
  | [] => [x]
  | y :: r => if lt (key y) (key x) then y :: insert_sorted x r else x :: l
  end.

(** [sorted(l, key=key)]: the stable sort by [key] under [<]. *)
Definition sorted (l : list A) : list A := fold_right insert_sorted [] l.
End Sorting.

(** [a < b] on pairs [(bool, str)]: the first components decide unless they
    are equal; [False < True]. *)
Definition key_lt (a b : bool * str) : bool :=
  if Bool.eqb (fst a) (fst b) then str_lt (snd a) (snd b)
  else negb (fst a) && fst b.

Definition key_le (a b : bool * str) : bool := negb (key_lt b a).

(** [sep.join(parts)] *)
Fixpoint join (sep : str) (parts : list str) : str :=
  match parts with
  | [] => []
  | [a] => a
  | a :: rest => a ++ sep ++ join sep rest
  end.

(** ** Tree builder and content collector *)

(** What a recursive call of [generate_tree_structure] on an item does,
    given [prefix], [is_last] and [output_lines]. *)
Definition walker : Type := str -> bool -> list str -> list str.

(** A walker appends to the lines it is given. *)
Definition appends (w : walker) : Prop :=
  forall prefix is_last output_lines,
    w prefix is_last output_lines = output_lines ++ w prefix is_last [].

(** What a recursive call of [collect_file_contents] on an item returns,
    given the parts of the item's path relative to [base_path]. *)
Definition collector : Type := list str -> list (str * str).

Section Traversal.
Context {R : Runtime}.

(** [lambda x: (not x.is_dir(), x.name.lower())] *)
Definition sort_key (x : entry) : bool * str :=
  (negb (is_dir x), lower (name x)).

(** [sorted(root_path.iterdir(), key=...)] on a listing. *)
Definition sorted_items (listing : list entry) : list entry :=
  sorted sort_key key_lt listing.

(** The condition of the list comprehension of [generate_tree_structure]. *)
Definition shown (item : entry) : bool :=
  negb (is_dir item && should_skip_directory (name item)).

(** [str(item.relative_to(base_path))], from the parts of the relative path. *)
Definition path_str (parts : list str) : str :=
  match parts with
  | [] => lit "."
  | _ => join [sep] parts
  end.

(** The [for index, item in enumerate(items)] loop of
    [generate_tree_structure], from [index] on; every item comes with the
    recursive call on it, and [len] is [len(items)]. *)
Fixpoint tree_loop (index len : nat) (items : list (entry * walker))
         (prefix : str) (output_lines : list str) : list str :=
  match items with
  | [] => output_lines
  | (item, recurse) :: rest =>
      let is_last_item := Nat.eqb index (len - 1) in
      let connector := if is_last_item then TREE_LAST else TREE_BRANCH in
      let output_lines :=
        if is_dir item
        then output_lines ++ [prefix ++ connector ++ name item ++ lit "/"]
        else output_lines ++ [prefix ++ connector ++ name item] in
      let output_lines :=
        if is_dir item
        then
          let extension := if is_last_item then TREE_SPACE else TREE_VERTICAL in
          recurse (prefix ++ extension) is_last_item output_lines
        else output_lines in
      tree_loop (S index) len rest prefix output_lines
  end.

(** The results of the recursive calls are tabulated along the listing
    before it is sorted and filtered, which keeps the recursion structural;
    [generate_tree_structure_Dir] below gives the body as the source has it. *)
Fixpoint generate_tree_structure (root_path : entry) : walker :=
  fun prefix is_last output_lines =>
    match root_path with
    | Dir _ listing =>
        let items :=
          sorted (fun p => sort_key (fst p)) key_lt
                 (map (fun x => (x, generate_tree_structure x)) listing) in
        let items := filter (fun p => shown (fst p)) items in
        tree_loop 0 (length items) items prefix output_lines
    | NoList _ (PermissionError _) =>
        output_lines ++ [prefix ++ lit "[Permission Denied]"]
    | NoList _ (OtherError e) =>
        output_lines ++ [prefix ++ lit "[Error: " ++ e ++ lit "]"]
    | File n _ _ | Other n =>
        output_lines ++ [prefix ++ lit "[Error: " ++ strerror_notdir n ++ lit "]"]
    end.

(** The [for item in sorted(...)] loop of [collect_file_contents];
    [rel] are the parts of [root_path] relative to [base_path]. *)
Fixpoint collect_loop (items : list (entry * collector)) (rel : list str)
         (file_contents : list (str * str)) : list (str * str) :=
  match items with
  | [] => file_contents
  | (item, recurse) :: rest =>
      if is_dir item && should_skip_directory (name item)
      then collect_loop rest rel file_contents
      else
        match item with
        | File n st_size data =>
            if should_include_file n st_size
            then
              let relative_path := rel ++ [n] in
              let content := read_file_content (open_read data) in
              collect_loop rest rel
                (file_contents ++ [(path_str relative_path, content)])
            else collect_loop rest rel file_contents
        | _ =>
            if is_dir item
            then collect_loop rest rel
                   (file_contents ++ recurse (rel ++ [name item]))
            else collect_loop rest rel file_contents
        end
  end.

(** [collect_file_contents (root_path, base_path)], with [base_path] given
    by the parts [rel] of [root_path] relative to it. *)
Fixpoint collect_file_contents (root_path : entry) : collector :=
  fun rel =>
    match root_path with
    | Dir _ listing =>
        collect_loop
          (sorted (fun p => sort_key (fst p)) key_lt
                  (map (fun x => (x, collect_file_contents x)) listing))
          rel []
    | _ => []
    end.

(** [enumerate(items)] *)
Definition enumerate A (items : list A) : list (nat * A) :=
  combine (seq 0 (length items)) items.

(** What one turn of the loop of [generate_tree_structure] appends for
    [item]: its line, then the lines of the call on it if it is a
    directory. *)
Definition tree_row (prefix : str) (is_last_item : bool) (item : entry)
  : list str :=
  let connector := if is_last_item then TREE_LAST else TREE_BRANCH in
  if is_dir item
  then (prefix ++ connector ++ name item ++ lit "/")
       :: generate_tree_structure item
            (prefix ++ (if is_last_item then TREE_SPACE else TREE_VERTICAL))
            is_last_item []
  else [prefix ++ connector ++ name item].

(** What one turn of the loop of [collect_file_contents] adds for [item]. *)
Definition collect_item (rel : list str) (item : entry) : list (str * str) :=
  if is_dir item && should_skip_directory (name item) then []
  else
    match item with
    | File n st_size data =>
        if should_include_file n st_size
        then [(path_str (rel ++ [n]), read_file_content (open_read data))]
        else []
    | _ =>
        if is_dir item then collect_file_contents item (rel ++ [name item])
        else []
    end.




(** The calls of the exporters: the defaults of the source. *)
Definition tree_of (root : entry) : list str :=
  generate_tree_structure root [] true [].
Definition contents_of (root : entry) : list (str * str) :=
  collect_file_contents root [].

End Traversal.

(** ** Reachable entries *)

(** The file system without the directories the classifier skips, at every
    depth. *)
Fixpoint prune (x : entry) : entry :=
  match x with
  | Dir n listing => Dir n (filter shown (map prune listing))
  | _ => x
  end.

(** No directory below [x] is one the classifier skips. *)
Fixpoint unskipped (x : entry) : bool :=
  match x with
  | Dir _ listing => forallb (fun y => shown y && unskipped y) listing
  | _ => true
  end.

(** [below root parts x]: [x] lies below [root] at the relative path
    [parts], and no directory between [root] and [x] is one the classifier
    skips. *)
Inductive below : entry -> list str -> entry -> Prop :=
| below_item n listing x :
    In x listing ->
    below (Dir n listing) [name x] x
| below_deeper n listing d parts x :
    In d listing -> shown d = true -> below d parts x ->
    below (Dir n listing) (name d :: parts) x.

(** [x] has a line of its own among [lines]: an indentation, a connector,
    its name, and a slash if it is a directory. *)
Definition listed (x : entry) (lines : list str) : Prop :=
  exists (prefix : str) (is_last_item : bool),
    In (prefix ++ (if is_last_item then TREE_LAST else TREE_BRANCH)
               ++ name x ++ (if is_dir x then lit "/" else []))
       lines.

(** The indentation of a line below ancestors of which [flags] tells, from
    the outermost in, whether each was the last item of its directory. *)
Definition indent_of (flags : list bool) : str :=
  concat (map (fun is_last_item : bool =>
                 if is_last_item then TREE_SPACE else TREE_VERTICAL) flags).

(** The lines of the tree of [x]: one for a path that cannot be listed, and
    for a directory one for each item that is not a skipped directory, plus
    the lines of the item if it is a directory. *)
Fixpoint tree_size (x : entry) : nat :=
  match x with
  | Dir _ listing =>
      list_sum (map (fun y => if shown y
                              then 1 + (if is_dir y then tree_size y else 0)
                              else 0) listing)
  | _ => 1
  end.

(** ** Exporters *)

(** The blocks of an output document, for both formats.  Fonts, sizes and
    colours change how a block looks, not which blocks there are, and are
    left out, as are the progress messages printed on the console. *)
Inductive block :=
| Heading (level : nat) (text : str)
| Paragraph (text : str)
| Preformatted (text : str)
| Spacer (height : nat)
| PageBreak.

(** A run either raises an exception [e], given by [str(e)], or returns. *)
Definition result (A : Type) : Type := str + A.

Definition ret {A} (a : A) : result A := inr a.
Definition raise {A} (e : str) : result A := inl e.
Definition bind {A B} (m : result A) (k : A -> result B) : result B :=
  match m with
  | inl e => inl e
  | inr a => k a
  end.

Notation "x <- m ;; k" := (bind m (fun x => k))
  (at level 61, m at next level, right associativity).

(** [try: body except Exception as e: handler(e)] *)
Definition try_except {A} (body : result A) (handler : str -> result A) : result A :=
  match body with
  | inl e => handler e
  | inr a => inr a
  end.

(** [str(n)] for a length. *)
Definition nat_str (n : nat) : str :=
  lit (DecimalString.NilEmpty.string_of_uint (Nat.to_uint n)).

(** [content.replace('&', '&amp;').replace('<', '&lt;').replace('>', '&gt;')] *)
Definition escape_markup (content : str) : str :=
  replace_char 62%N (lit "&gt;")
    (replace_char 60%N (lit "&lt;")
       (replace_char 38%N (lit "&amp;") content)).

Section Exporters.
Context {R : Runtime}.

(** The document libraries are not part of the repository: which texts
    they refuse is theirs to say.  [docx_error text] is [Some msg] when
    adding a paragraph (or heading) of [text] to a Word document raises an
    exception with that message; [Paragraph_error] and
    [Preformatted_error] are the same for building these two flowables,
    and [build_error] for [doc.build].  A call that raises adds nothing. *)
Variable docx_error : str -> option str.
Variable Paragraph_error : str -> option str.
Variable Preformatted_error : str -> option str.
Variable build_error : list block -> option str.

Definition add_heading (doc : list block) (text : str) (level : nat)
  : result (list block) :=
  match docx_error text with
  | Some e => raise e
  | None => ret (doc ++ [Heading level text])
  end.

Definition add_paragraph (doc : list block) (text : str) : result (list block) :=
  match docx_error text with
  | Some e => raise e
  | None => ret (doc ++ [Paragraph text])
  end.

Definition add_page_break (doc : list block) : result (list block) :=
  ret (doc ++ [PageBreak]).

(** The body of the loop over [enumerate(file_contents, 1)] of
    [generate_word_document], for one file. *)
Definition word_file (doc : list block) (index : nat) (file : str * str)
  : result (list block) :=
  let (relative_path, content) := file in
  doc <- add_paragraph doc (repeat 9472%N 60) ;;
  doc <- add_paragraph doc (lit "File: " ++ relative_path) ;;
  doc <- add_paragraph doc (repeat 9472%N 60) ;;
  doc <- try_except (add_paragraph doc content)
           (fun e => add_paragraph doc (lit "[Error adding content: " ++ e ++ lit "]")) ;;
  doc <- add_paragraph doc [] ;;
  if Nat.eqb (index mod 3) 0 then add_page_break doc else ret doc.

Fixpoint word_files (doc : list block) (index : nat) (file_contents : list (str * str))
  : result (list block) :=
  match file_contents with
  | [] => ret doc
  | file :: rest =>
      doc <- word_file doc index file ;;
      word_files doc (S index) rest
  end.

(** [generate_word_document], run in the directory [current_dir] whose
    absolute path prints as [cwd]; the result is the document saved. *)
Definition generate_word_document (cwd : str) (current_dir : entry)
  : result (list block) :=
  let doc := [] in
  doc <- add_heading doc (lit "Repository Dump") 0 ;;
  doc <- add_paragraph doc (lit "Root Directory: " ++ cwd) ;;
  doc <- add_paragraph doc (repeat 61%N 60) ;;
  doc <- add_paragraph doc [] ;;
  doc <- add_heading doc (lit "Directory Structure") 1 ;;
  doc <- add_paragraph doc (name current_dir ++ lit "/") ;;
  let tree_lines := tree_of current_dir in
  let tree_text := join [10%N] tree_lines in
  let tree_text := sanitize_xml_content tree_text in
  doc <- add_paragraph doc tree_text ;;
  doc <- add_page_break doc ;;
  let file_contents := contents_of current_dir in
  doc <- add_heading doc
           (lit "File Contents (" ++ nat_str (length file_contents) ++ lit " files)") 1 ;;
  doc <- word_files doc 1 file_contents ;;
  doc <- add_paragraph doc (repeat 61%N 60) ;;
  doc <- add_paragraph doc
           (lit "Total files processed: " ++ nat_str (length file_contents)) ;;
  ret doc.

(** [elements.append(Paragraph(text, style))] *)
Definition append_Paragraph (elements : list block) (text : str)
  : result (list block) :=
  match Paragraph_error text with
  | Some e => raise e
  | None => ret (elements ++ [Paragraph text])
  end.

(** [elements.append(Preformatted(text, styles['Code']))] *)
Definition append_Preformatted (elements : list block) (text : str)
  : result (list block) :=
  match Preformatted_error text with
  | Some e => raise e
  | None => ret (elements ++ [Preformatted text])
  end.

(** The body of the loop over [enumerate(file_contents, 1)] of
    [generate_pdf_document], for one file. *)
Definition pdf_file (elements : list block) (index : nat) (file : str * str)
  : result (list block) :=
  let (relative_path, content) := file in
  elements <- append_Paragraph elements (repeat 9472%N 100) ;;
  elements <- append_Paragraph elements (lit "File: " ++ relative_path) ;;
  elements <- append_Paragraph elements (repeat 9472%N 100) ;;
  let elements := elements ++ [Spacer 6] in
  let content_escaped := escape_markup content in
  elements <- append_Preformatted elements content_escaped ;;
  let elements := elements ++ [Spacer 12] in
  if Nat.eqb (index mod 2) 0 then ret (elements ++ [PageBreak]) else ret elements.

Fixpoint pdf_files (elements : list block) (index : nat)
         (file_contents : list (str * str)) : result (list block) :=
  match file_contents with
  | [] => ret elements
  | file :: rest =>
      elements <- pdf_file elements index file ;;
      pdf_files elements (S index) rest
  end.

(** [generate_pdf_document]; the result is the list of flowables built
    into the file. *)
Definition generate_pdf_document (cwd : str) (current_dir : entry)
  : result (list block) :=
  let elements := [] in
  elements <- append_Paragraph elements (lit "Repository Dump") ;;
  let elements := elements ++ [Spacer 12] in
  elements <- append_Paragraph elements (lit "Root Directory: " ++ cwd) ;;
  elements <- append_Paragraph elements (repeat 61%N 100) ;;
  let elements := elements ++ [Spacer 12] in
  elements <- append_Paragraph elements (lit "Directory Structure") ;;
  let elements := elements ++ [Spacer 6] in
  let tree_lines := tree_of current_dir in
  let tree_text := name current_dir ++ lit "/" ++ [10%N] ++ join [10%N] tree_lines in
  let tree_text := sanitize_xml_content tree_text in
  elements <- append_Preformatted elements tree_text ;;
  let elements := elements ++ [PageBreak] in
  let file_contents := contents_of current_dir in
  elements <- append_Paragraph elements
                (lit "File Contents (" ++ nat_str (length file_contents) ++ lit " files)") ;;
  let elements := elements ++ [Spacer 12] in
  elements <- pdf_files elements 1 file_contents ;;
  elements <- append_Paragraph elements (repeat 61%N 100) ;;
  elements <- append_Paragraph elements
                (lit "Total files processed: " ++ nat_str (length file_contents)) ;;
  match build_error elements with
  | Some e => raise e
  | None => ret elements
  end.

End Exporters.

(** What [escape_markup] makes of one character. *)
Definition markup_code (c : char) : str :=
  if char_eqb c 38%N then lit "&amp;"
  else if char_eqb c 60%N then lit "&lt;"
  else if char_eqb c 62%N then lit "&gt;"
  else [c].

(** Reading the three entities back. *)
Fixpoint unescape_markup (s : str) : str :=
  match s with
  | [] => []
  | c :: r =>
      if char_eqb c 38%N then
        match r with
        | c1 :: c2 :: c3 :: r3 =>
            if (char_eqb c1 108 && char_eqb c2 116 && char_eqb c3 59)%N
            then 60%N :: unescape_markup r3
            else if (char_eqb c1 103 && char_eqb c2 116 && char_eqb c3 59)%N
            then 62%N :: unescape_markup r3
            else
              match r3 with
              | c4 :: r4 =>
                  if (char_eqb c1 97 && char_eqb c2 109 && char_eqb c3 112
                      && char_eqb c4 59)%N
                  then 38%N :: unescape_markup r4
                  else c :: unescape_markup r
              | [] => c :: unescape_markup r
              end
        | _ => c :: unescape_markup r
        end
      else c :: unescape_markup r
  end.

(** ** Layout of the documents *)

Section Layout.
Variable docx_error : str -> option str.



End Layout.

(** ** Entry point *)






Section Main.
Context {R : Runtime}.
Variable docx_error : str -> option str.
Variable Paragraph_error : str -> option str.
Variable Preformatted_error : str -> option str.
Variable build_error : list block -> option str.


End Main.

(** The runtime used for concrete runs: ASCII names on a POSIX system. *)
#[export] Instance posix : Runtime := {|
  lower := ascii_lower;
  lower_ascii := fun _ _ => eq_refl;
  sep := 47%N;
  strerror_notdir := fun n => lit "[Errno 20] Not a directory: '" ++ n ++ lit "'"
|}.

(** ** Example file systems *)

(** A regular file of the given name and text, in ASCII. *)
Definition text_file (n : string) (text : string) : entry :=
  File (lit n) (Some (N.of_nat (String.length text)))
       (inr (list_byte_of_string text)).

(** A repository with a source directory, a dependency cache and an image. *)
Definition example_repo : entry :=
  Dir (lit "repo")
      [ text_file "image.png" "PNG";
        Dir (lit "node_modules") [text_file "x.js" "x()"];
        Dir (lit "src") [text_file "main.py" "print(1)"] ].

(** The same with more in the dependency cache and a hidden directory. *)
Definition example_repo_grown : entry :=
  Dir (lit "repo")
      [ text_file "image.png" "PNG";
        Dir (lit "node_modules")
            [text_file "x.js" "x()"; Dir (lit "lib") [text_file "y.py" "y = 2"]];
        Dir (lit ".git") [text_file "config.txt" "[core]"];
        Dir (lit "src") [text_file "main.py" "print(1)"] ].

(** A repository with a directory that cannot be listed and a socket. *)
Definition example_guarded : entry :=
  Dir (lit "repo")
      [ Other (lit "sock");
        NoList (lit "secret") (PermissionError (lit "[Errno 13] Permission denied"));
        NoList (lit "stale") (OtherError (lit "[Errno 116] Stale file handle"));
        text_file "README" "hello" ].

(** Siblings [b.txt], [A] and [a.txt], of which [A] is a directory. *)
Definition example_siblings : list entry :=
  [ text_file "b.txt" "b"; Dir (lit "A") []; text_file "a.txt" "a" ].


(** A document library that, as XML does, refuses a text that holds a
    control character below U+0020 other than tab, line feed and carriage
    return. *)
Definition refuses_controls (text : str) : option str :=
  if existsb (fun c => in_range 0 8 c || char_eqb c 11 || char_eqb c 12
                       || in_range 14 31 c)%N text
  then Some (lit "All strings must be XML compatible")
  else None.

(** A repository with a file whose name holds the control character U+0001. *)
Definition example_control_name : entry :=
  Dir (lit "repo")
      [ File (lit "a" ++ [1%N] ++ lit ".py") (Some 2%N)
             (inr (list_byte_of_string "ok")) ].

(** ** Properties *)

Lemma char_eqb_eq (a b : char) : char_eqb a b = true <-> a = b.
Proof. apply N.eqb_eq. Qed.

Lemma flat_map_filter_drop (cls : char -> bool) (s : str) :
  flat_map (fun c => if cls c then [] else [c]) s = filter (fun c => negb (cls c)) s.
Proof.
  induction s as [|c s IH]; simpl; [reflexivity|].
  destruct (cls c); simpl; now rewrite IH.
Qed.

Lemma filter_filter A (p q : A -> bool) (l : list A) :
  filter p (filter q l) = filter (fun x => q x && p x) l.
Proof.
  induction l as [|x l IH]; simpl; [reflexivity|].
  destruct (q x); simpl; [destruct (p x)|]; now rewrite IH.
Qed.

Lemma dropped_xml_illegal (c : char) : dropped c = xml_illegal c.
Proof.
  unfold dropped, xml_illegal, is_control, in_range, char_eqb.
  repeat match goal with
         | |- context [N.eqb ?a ?b] => destruct (N.eqb_spec a b)
         | |- context [N.leb ?a ?b] => destruct (N.leb_spec a b)
         end; simpl; try reflexivity; lia.
Qed.

Lemma sanitize_xml_content_filter (text : str) :
  sanitize_xml_content text = sanitize_spec text.
Proof.
  unfold sanitize_xml_content, sanitize_spec, replace_char, re_sub_class.
  destruct text as [|c text]; [reflexivity|].
  set (s := c :: text).
  change (fun c0 : char => if char_eqb c0 0%N then [] else [c0])
    with (fun c0 : char => if (fun x => char_eqb x 0%N) c0 then [] else [c0]).
  rewrite !flat_map_filter_drop, filter_filter.
  apply filter_ext. intros a. rewrite dropped_xml_illegal.
  unfold xml_illegal, in_range, char_eqb.
  destruct (N.eqb_spec a 0%N) as [->|]; simpl; reflexivity.
Qed.

(** C7: the sanitizer keeps, in order, exactly the characters that are
    neither the null character nor a control character other than tab, line
    feed and carriage return, and sanitizing twice is sanitizing once. *)
Theorem sanitize_removes_controls_idempotent (s : str) :
  sanitize_xml_content s = filter (fun c => negb (dropped c)) s
  /\ sanitize_xml_content (sanitize_xml_content s) = sanitize_xml_content s.
Proof.
  split; [apply sanitize_xml_content_filter|].
  rewrite !sanitize_xml_content_filter. unfold sanitize_spec.
  rewrite filter_filter. apply filter_ext. intros a.
  now destruct (dropped a).
Qed.

(** ** Order on keys *)

Lemma str_eqb_eq (a b : str) : str_eqb a b = true <-> a = b.
Proof.
  revert b; induction a as [|x a IH]; intros [|y b]; simpl;
    try (split; [discriminate | congruence || discriminate]); [tauto|].
  rewrite andb_true_iff, char_eqb_eq, IH. split; [intros []|intros [=]]; subst; auto.
Qed.

Lemma str_in_In (x : str) (S : list str) : str_in x S = true <-> In x S.
Proof.
  unfold str_in. rewrite existsb_exists. split.
  - intros (y & Hy & E). apply str_eqb_eq in E. now subst.
  - intros H. exists x. split; [assumption | now apply str_eqb_eq].
Qed.

Lemma str_lt_irrefl (a : str) : str_lt a a = false.
Proof.
  induction a as [|x a IH]; simpl; [reflexivity|].
  unfold char_eqb. now rewrite N.eqb_refl.
Qed.

Lemma str_lt_trans (a b c : str) :
  str_lt a b = true -> str_lt b c = true -> str_lt a c = true.
Proof.
  revert b c; induction a as [|x a IH]; intros [|y b] [|z c]; simpl;
    try discriminate; try reflexivity.
  unfold char_eqb.
  destruct (N.eqb_spec x y), (N.eqb_spec y z), (N.eqb_spec x z);
    subst; try congruence; rewrite ?N.ltb_lt; try lia.
  apply IH.
Qed.

Lemma str_lt_connex (a b : str) :
  str_lt a b = false -> str_lt b a = false -> a = b.
Proof.
  revert b; induction a as [|x a IH]; intros [|y b]; simpl;
    try discriminate; try reflexivity.
  unfold char_eqb. rewrite (N.eqb_sym y x).
  destruct (N.eqb_spec x y); subst.
  - intros H1 H2. f_equal. now apply IH.
  - rewrite !N.ltb_ge. lia.
Qed.

Lemma key_lt_irrefl (a : bool * str) : key_lt a a = false.
Proof. unfold key_lt. rewrite eqb_reflx. apply str_lt_irrefl. Qed.

Lemma key_lt_trans (a b c : bool * str) :
  key_lt a b = true -> key_lt b c = true -> key_lt a c = true.
Proof.
  destruct a as [[] a], b as [[] b], c as [[] c]; unfold key_lt; simpl;
    try discriminate; try reflexivity; apply str_lt_trans.
Qed.

Lemma key_lt_connex (a b : bool * str) :
  key_lt a b = false -> key_lt b a = false -> a = b.
Proof.
  destruct a as [[] a], b as [[] b]; unfold key_lt; simpl;
    try discriminate; intros H1 H2; f_equal; now apply str_lt_connex.
Qed.

Lemma key_lt_le (a b : bool * str) : key_lt a b = true -> key_le a b = true.
Proof.
  intros H. unfold key_le. destruct (key_lt b a) eqn:E; [|reflexivity].
  pose proof (key_lt_trans H E) as F. rewrite key_lt_irrefl in F. discriminate.
Qed.

Lemma key_le_trans (a b c : bool * str) :
  key_le a b = true -> key_le b c = true -> key_le a c = true.
Proof.
  unfold key_le. rewrite !negb_true_iff. intros H1 H2.
  destruct (key_lt c a) eqn:E; [|reflexivity].
  destruct (key_lt a b) eqn:E'.
  - pose proof (key_lt_trans E E') as F. congruence.
  - assert (a = b) by now apply key_lt_connex. subst. congruence.
Qed.

(** ** Sorting *)

Section SortingFacts.
Variables (A K : Type) (key : A -> K) (lt : K -> K -> bool).

Let le (a b : K) : bool := negb (lt b a).

Lemma insert_sorted_perm (x : A) (l : list A) :
  Permutation (insert_sorted key lt x l) (x :: l).
Proof.
  induction l as [|y l IH]; simpl; [reflexivity|].
  destruct (lt (key y) (key x)); [|reflexivity].
  rewrite IH. apply perm_swap.
Qed.

Lemma sorted_perm (l : list A) : Permutation (sorted key lt l) l.
Proof.
  induction l as [|x l IH]; simpl; [reflexivity|].
  rewrite insert_sorted_perm. now constructor.
Qed.

Lemma sorted_In (l : list A) (x : A) : In x (sorted key lt l) <-> In x l.
Proof.
  split; apply Permutation_in; [|symmetry]; apply sorted_perm.
Qed.

Lemma sorted_length (l : list A) : length (sorted key lt l) = length l.
Proof. apply Permutation_length, sorted_perm. Qed.

(** Sorting a list of images is sorting the list under the image's key. *)
Lemma sorted_map B (f : B -> A) (l : list B) :
  sorted key lt (map f l) = map f (sorted (fun b => key (f b)) lt l).
Proof.
  induction l as [|x l IH]; simpl; [reflexivity|].
  fold (sorted key lt (map f l)). rewrite IH.
  fold (sorted (fun b => key (f b)) lt l).
  generalize (sorted (fun b => key (f b)) lt l) as s.
  induction s as [|y s IHs]; simpl; [reflexivity|].
  destruct (lt (key (f y)) (key (f x))); simpl; [now rewrite IHs | reflexivity].
Qed.

Hypothesis lt_le : forall a b, lt a b = true -> le a b = true.
Hypothesis le_trans : forall a b c, le a b = true -> le b c = true -> le a c = true.

Let ordered (x y : A) : Prop := le (key x) (key y) = true.

Lemma insert_sorted_ordered (x : A) (l : list A) :
  StronglySorted ordered l -> StronglySorted ordered (insert_sorted key lt x l).
Proof.
  induction 1 as [|y l Hl IH Hy]; simpl; [repeat constructor|].
  destruct (lt (key y) (key x)) eqn:E.
  - constructor; [assumption|].
    apply Forall_forall. intros z Hz.
    apply (Permutation_in _ (insert_sorted_perm x l)) in Hz.
    destruct Hz as [<-|Hz]; [now apply lt_le|].
    rewrite Forall_forall in Hy. now apply Hy.
  - assert (Hxy : ordered x y) by (unfold ordered, le; now rewrite E).
    constructor; [now constructor|].
    constructor; [assumption|].
    eapply Forall_impl; [|exact Hy]. intros z Hz. now apply le_trans with (key y).
Qed.

Lemma sorted_ordered (l : list A) : StronglySorted ordered (sorted key lt l).
Proof.
  induction l as [|x l IH]; simpl; [constructor | now apply insert_sorted_ordered].
Qed.

(** Filtering commutes with insertion into a sorted list, and so with
    sorting: the sort is stable. *)
Lemma filter_insert_sorted (p : A -> bool) (x : A) (l : list A) :
  StronglySorted ordered l ->
  filter p (insert_sorted key lt x l) =
  if p x then insert_sorted key lt x (filter p l) else filter p l.
Proof.
  induction 1 as [|y l Hl IH Hy]; simpl; [now destruct (p x)|].
  destruct (lt (key y) (key x)) eqn:E; simpl.
  - rewrite IH. destruct (p y), (p x); simpl; rewrite ?E; reflexivity.
  - destruct (p x) eqn:Px; [|reflexivity].
    destruct (p y); simpl; [now rewrite E|].
    clear IH. induction l as [|z l IHl]; simpl; [reflexivity|].
    inversion Hl as [|? ? Hl' _]; inversion Hy as [|? ? Hyz Hy']; subst.
    destruct (p z); simpl.
    + assert (lt (key z) (key x) = false) as ->; [|reflexivity].
      assert (Lxy : le (key x) (key y) = true) by (unfold le; now rewrite E).
      assert (Lxz : le (key x) (key z) = true) by now apply le_trans with (key y).
      unfold le in Lxz. now apply negb_true_iff in Lxz.
    + now apply IHl.
Qed.

(** Elements the order does not tell apart stay as they are. *)
Lemma sorted_fixed (l : list A) :
  (forall x y, In x l -> In y l -> lt (key x) (key y) = false) ->
  sorted key lt l = l.
Proof.
  induction l as [|x l IH]; intros H; simpl; [reflexivity|].
  fold (sorted key lt l). rewrite IH by (intros; apply H; now right).
  destruct l as [|y l]; simpl; [reflexivity|].
  rewrite H; [reflexivity | right; now left | now left].
Qed.

Lemma filter_sorted (p : A -> bool) (l : list A) :
  filter p (sorted key lt l) = sorted key lt (filter p l).
Proof.
  induction l as [|x l IH]; simpl; [reflexivity|].
  rewrite filter_insert_sorted by apply sorted_ordered.
  fold (sorted key lt l). rewrite IH. now destruct (p x).
Qed.

End SortingFacts.

(** ** Traversals *)

Lemma entry_induction (P : entry -> Prop) :
  (forall n st data, P (File n st data)) ->
  (forall n listing, Forall P listing -> P (Dir n listing)) ->
  (forall n e, P (NoList n e)) ->
  (forall n, P (Other n)) ->
  forall x, P x.
Proof.
  intros HF HD HN HO.
  refine (fix IH (x : entry) : P x :=
            match x with
            | File n st data => HF n st data
            | Dir n listing =>
                HD n listing
                   ((fix all (l : list entry) : Forall P l :=
                       match l with
                       | [] => Forall_nil P
                       | y :: r => Forall_cons y (IH y) (all r)
                       end) listing)
            | NoList n e => HN n e
            | Other n => HO n
            end).
Qed.

Lemma filter_map A B (f : A -> B) (p : B -> bool) (l : list A) :
  filter p (map f l) = map f (filter (fun a => p (f a)) l).
Proof.
  induction l as [|x l IH]; simpl; [reflexivity|].
  destruct (p (f x)); simpl; now rewrite IH.
Qed.

Lemma Forall_filter_sorted A K (key : A -> K) (lt : K -> K -> bool)
      (p : A -> bool) (P : A -> Prop) (l : list A) :
  Forall P l -> Forall P (filter p (sorted key lt l)).
Proof.
  rewrite !Forall_forall. intros H x Hx.
  apply filter_In in Hx. apply H, (sorted_In key lt), Hx.
Qed.

Section TraversalFacts.
Context {R : Runtime}.

Lemma sorted_items_perm (listing : list entry) :
  Permutation (sorted_items listing) listing.
Proof. apply sorted_perm. Qed.

Lemma sorted_items_tabulated B (f : entry -> B) (listing : list entry) :
  sorted (fun p => sort_key (fst p)) key_lt (map (fun x => (x, f x)) listing)
  = map (fun x => (x, f x)) (sorted_items listing).
Proof.
  exact (sorted_map (fun p : entry * B => sort_key (fst p)) key_lt
                    (fun x => (x, f x)) listing).
Qed.

(** The body of [generate_tree_structure] on a directory that can be
    listed, as the source has it: sort, filter, loop. *)
Lemma generate_tree_structure_Dir n listing prefix is_last output_lines :
  generate_tree_structure (Dir n listing) prefix is_last output_lines =
  let items := sorted_items listing in
  let items := filter shown items in
  tree_loop 0 (length items)
            (map (fun x => (x, generate_tree_structure x)) items)
            prefix output_lines.
Proof.
  cbn [generate_tree_structure].
  rewrite sorted_items_tabulated, filter_map. cbn [fst].
  now rewrite length_map.
Qed.

(** The body of [collect_file_contents] on such a directory. *)
Lemma collect_file_contents_Dir n listing rel :
  collect_file_contents (Dir n listing) rel =
  collect_loop (map (fun x => (x, collect_file_contents x)) (sorted_items listing))
               rel [].
Proof.
  cbn [collect_file_contents]. now rewrite sorted_items_tabulated.
Qed.

Lemma tree_loop_rows (f : entry -> walker) (items : list entry) :
  Forall (fun x => appends (f x)) items ->
  forall index len prefix output_lines,
    tree_loop index len (map (fun x => (x, f x)) items) prefix output_lines =
    output_lines ++
      flat_map (fun ix =>
                  let is_last_item := Nat.eqb (fst ix) (len - 1) in
                  let connector := if is_last_item then TREE_LAST else TREE_BRANCH in
                  if is_dir (snd ix)
                  then (prefix ++ connector ++ name (snd ix) ++ lit "/")
                       :: f (snd ix)
                            (prefix ++ (if is_last_item then TREE_SPACE else TREE_VERTICAL))
                            is_last_item []
                  else [prefix ++ connector ++ name (snd ix)])
               (combine (seq index (length items)) items).
Proof.
  induction 1 as [|x items Hx _ IH]; intros index len prefix out; simpl.
  - now rewrite app_nil_r.
  - rewrite IH. destruct (is_dir x); simpl.
    + rewrite Hx, <- !app_assoc. reflexivity.
    + rewrite <- !app_assoc. reflexivity.
Qed.

Lemma generate_tree_structure_appends (x : entry) :
  appends (generate_tree_structure x).
Proof.
  induction x as [n st data|n listing IH|n [m|m]|n] using entry_induction;
    intros prefix is_last out; try reflexivity.
  rewrite !generate_tree_structure_Dir. cbv zeta.
  rewrite !tree_loop_rows by now apply Forall_filter_sorted.
  reflexivity.
Qed.

(** The lines of a directory are the rows of its items, in order: every
    item's line is followed by the lines of what lies below it and then by
    the next item's. *)
Lemma generate_tree_structure_rows n listing prefix is_last output_lines :
  generate_tree_structure (Dir n listing) prefix is_last output_lines =
  let items := filter shown (sorted_items listing) in
  output_lines ++
    flat_map (fun ix => tree_row prefix (Nat.eqb (fst ix) (length items - 1)) (snd ix))
             (enumerate items).
Proof.
  rewrite generate_tree_structure_Dir. cbv zeta.
  rewrite tree_loop_rows.
  - reflexivity.
  - apply Forall_forall. intros x _. apply generate_tree_structure_appends.
Qed.

Lemma collect_loop_items (f : entry -> collector) (items : list entry) rel :
  forall file_contents,
    collect_loop (map (fun x => (x, f x)) items) rel file_contents =
    file_contents ++
      flat_map (fun item =>
                  if is_dir item && should_skip_directory (name item) then []
                  else
                    match item with
                    | File n st_size data =>
                        if should_include_file n st_size
                        then [(path_str (rel ++ [n]), read_file_content (open_read data))]
                        else []
                    | _ => if is_dir item then f item (rel ++ [name item]) else []
                    end)
               items.
Proof.
  induction items as [|x items IH]; intros acc; simpl.
  - now rewrite app_nil_r.
  - destruct (is_dir x && should_skip_directory (name x)); simpl; [apply IH|].
    destruct x as [n st data|n l|n e|n]; simpl.
    + destruct (should_include_file n st); rewrite IH; simpl;
        [now rewrite <- app_assoc | reflexivity].
    + rewrite IH. now rewrite <- app_assoc.
    + rewrite IH. now rewrite <- app_assoc.
    + apply IH.
Qed.

(** What a directory contributes is what its items contribute, in order. *)
Lemma collect_file_contents_items n listing rel :
  collect_file_contents (Dir n listing) rel =
  flat_map (collect_item rel) (sorted_items listing).
Proof.
  rewrite collect_file_contents_Dir, collect_loop_items. reflexivity.
Qed.

End TraversalFacts.

(** ** Classifier: properties *)

(** C1: a 1 KiB file [notes.xyz], whose extension is in neither table and
    whose name is not a conventional one, is excluded although its size is
    under 10 MiB; what [stat] gives never changes the answer. *)
Theorem small_unlisted_file_excluded :
  suffix (lit "notes.xyz") = lit ".xyz"
  /\ str_in (lit ".xyz") BINARY_EXTENSIONS = false
  /\ str_in (lit ".xyz") TEXT_EXTENSIONS = false
  /\ str_in (lit "notes.xyz") CONVENTIONAL_NAMES = false
  /\ should_include_file (R := posix) (lit "notes.xyz") (Some 1024%N) = false
  /\ (forall (R : Runtime) file_name st_size st_size',
         should_include_file file_name st_size
         = should_include_file file_name st_size')
  /\ (forall (R : Runtime) file_name st_size,
         should_include_file file_name st_size =
         let ext := lower (suffix file_name) in
         negb (str_in ext BINARY_EXTENSIONS)
         && (str_in ext TEXT_EXTENSIONS
             || (negb (Nat.ltb 0 (length ext))
                 && str_in (lower file_name) CONVENTIONAL_NAMES))).
Proof.
  repeat split; try (vm_compute; reflexivity).
  - intros R file_name st st'. unfold should_include_file.
    destruct st as [size|], st' as [size'|];
      repeat match goal with |- context [if ?b then _ else _] => destruct b end;
      reflexivity.
  - intros R file_name st. unfold should_include_file. cbv zeta.
    destruct st as [size|];
      repeat match goal with |- context [if ?b then _ else _] => destruct b end;
      reflexivity.
Qed.

(** C10: each of [.gitignore], [.dockerignore], [.editorconfig] and [.env]
    is in the table of text extensions, has an empty suffix as a file name,
    and is excluded by the classifier, whatever its size. *)
Theorem dotfiles_excluded {R : Runtime} :
  Forall (fun file_name =>
            str_in file_name TEXT_EXTENSIONS = true
            /\ suffix file_name = []
            /\ str_in file_name CONVENTIONAL_NAMES = false
            /\ forall st_size, should_include_file file_name st_size = false)
         (map lit [".gitignore"; ".dockerignore"; ".editorconfig"; ".env"]%string).
Proof.
  repeat constructor; try (vm_compute; reflexivity);
    intros st; unfold should_include_file;
    rewrite !lower_ascii by reflexivity; destruct st; vm_compute;
    repeat match goal with |- context [if ?b then _ else _] => destruct b end;
    reflexivity.
Qed.

(** ** Reader: properties *)

Lemma read_loop_first (file_path : encoding -> attempt) before enc after :
  (forall e, In e before -> file_path e = UnicodeDecodeError) ->
  read_loop file_path (before ++ enc :: after) =
  match file_path enc with
  | Decoded content => sanitize_xml_content content
  | UnicodeDecodeError => read_loop file_path after
  | Raised e => lit "[Error reading file: " ++ e ++ lit "]"
  end.
Proof.
  induction before as [|b before IH]; intros H; simpl; [reflexivity|].
  rewrite (H b) by now left. apply IH. intros e He. apply H. now right.
Qed.

Lemma read_loop_none (file_path : encoding -> attempt) encs :
  (forall e, In e encs -> file_path e = UnicodeDecodeError) ->
  read_loop file_path encs = UNDECODABLE.
Proof.
  induction encs as [|b encs IH]; intros H; simpl; [reflexivity|].
  rewrite (H b) by now left. apply IH. intros e He. apply H. now right.
Qed.

(** C3: the reader returns the sanitized text of the first encoding of the
    list under which the file decodes; the fixed diagnostic when every
    encoding fails to decode; a diagnostic holding the error's description
    when opening or reading fails otherwise.  It is a total function to
    text: nothing is raised. *)
Theorem reader_first_decoding (file_path : encoding -> attempt) :
  encodings = [utf_8; utf_8_sig; latin_1; cp1252; iso_8859_1]
  /\ (forall before enc after content,
         encodings = before ++ enc :: after ->
         (forall e, In e before -> file_path e = UnicodeDecodeError) ->
         file_path enc = Decoded content ->
         read_file_content file_path = sanitize_xml_content content)
  /\ ((forall e, In e encodings -> file_path e = UnicodeDecodeError) ->
      read_file_content file_path =
      lit "[Error: Unable to decode file with supported encodings]")
  /\ (forall before enc after msg,
         encodings = before ++ enc :: after ->
         (forall e, In e before -> file_path e = UnicodeDecodeError) ->
         file_path enc = Raised msg ->
         read_file_content file_path = lit "[Error reading file: " ++ msg ++ lit "]")
  /\ (forall data before enc after text,
         file_path = open_read (inr data) ->
         encodings = before ++ enc :: after ->
         (forall e, In e before -> decode e data = None) ->
         decode enc data = Some text ->
         read_file_content file_path = sanitize_xml_content (universal_newlines text))
  /\ (forall msg,
         file_path = open_read (inl msg) ->
         read_file_content file_path = lit "[Error reading file: " ++ msg ++ lit "]").
Proof.
  split; [reflexivity|]. unfold read_file_content.
  split; [|split; [|split; [|split]]].
  - intros before enc after content -> Hb He.
    now rewrite read_loop_first, He.
  - apply read_loop_none.
  - intros before enc after msg -> Hb He.
    now rewrite read_loop_first, He.
  - intros data before enc after text -> -> Hb He.
    rewrite read_loop_first.
    + simpl. now rewrite He.
    + intros e Hin. simpl. now rewrite (Hb e Hin).
  - intros msg ->. reflexivity.
Qed.

Lemma reader_first_decoding_witness :
  read_file_content (fun _ => UnicodeDecodeError) = UNDECODABLE
  /\ read_file_content (fun enc => match enc with
                                   | utf_8 | utf_8_sig => UnicodeDecodeError
                                   | _ => Decoded [233%N]
                                   end) = [233%N]
  /\ read_file_content (fun enc => match enc with
                                   | utf_8 => UnicodeDecodeError
                                   | _ => Raised (lit "gone")
                                   end) = lit "[Error reading file: gone]"
  /\ read_file_content (open_read (inr [xe9; x07; x0d; x0a]%byte)) = [233%N; 10%N]
  /\ read_file_content (open_read (inl (lit "denied"))) =
     lit "[Error reading file: denied]".
Proof.
  split; [|split; [|split; [|split]]].
  - apply (proj1 (proj2 (proj2 (reader_first_decoding _)))).
    intros e _. reflexivity.
  - apply (proj1 (proj2 (reader_first_decoding _))
             [utf_8; utf_8_sig] latin_1 [cp1252; iso_8859_1] [233%N]);
      [reflexivity| |reflexivity].
    intros e [<-|[<-|[]]]; reflexivity.
  - apply (proj1 (proj2 (proj2 (proj2 (reader_first_decoding _))))
             [utf_8] utf_8_sig [latin_1; cp1252; iso_8859_1] (lit "gone"));
      [reflexivity| |reflexivity].
    intros e [<-|[]]; reflexivity.
  - apply (proj1 (proj2 (proj2 (proj2 (proj2 (reader_first_decoding _)))))
             [xe9; x07; x0d; x0a]%byte
             [utf_8; utf_8_sig] latin_1 [cp1252; iso_8859_1]
             [233%N; 7%N; 13%N; 10%N]);
      [reflexivity|reflexivity| |reflexivity].
    intros e [<-|[<-|[]]]; reflexivity.
  - exact (proj2 (proj2 (proj2 (proj2 (proj2 (reader_first_decoding _)))))
             (lit "denied") eq_refl).
Defined.


(** ** Traversals: errors, skipped directories, coverage *)

Lemma sorted_ext A K (key key' : A -> K) (lt : K -> K -> bool) (l : list A) :
  (forall x, key x = key' x) -> sorted key lt l = sorted key' lt l.
Proof.
  intros E. induction l as [|x l IH]; simpl; [reflexivity|].
  fold (sorted key lt l) (sorted key' lt l). rewrite IH.
  generalize (sorted key' lt l) as s.
  induction s as [|y s IHs]; simpl; [reflexivity|].
  now rewrite !E, IHs.
Qed.

Lemma flat_map_filter_nil A B (f : A -> list B) (p : A -> bool) (l : list A) :
  (forall x, p x = false -> f x = []) ->
  flat_map f (filter p l) = flat_map f l.
Proof.
  intros H. induction l as [|x l IH]; simpl; [reflexivity|].
  destruct (p x) eqn:E; simpl; rewrite IH; [reflexivity | now rewrite H].
Qed.

Lemma flat_map_ext_in A B (f g : A -> list B) (l : list A) :
  (forall x, In x l -> f x = g x) -> flat_map f l = flat_map g l.
Proof.
  induction l as [|x l IH]; intros H; simpl; [reflexivity|].
  rewrite (H x) by now left. f_equal. apply IH. intros y Hy. apply H. now right.
Qed.

Lemma filter_idem A (p : A -> bool) (l : list A) :
  filter p (filter p l) = filter p l.
Proof.
  rewrite filter_filter. apply filter_ext. intros x. now destruct (p x).
Qed.

Lemma enumerate_map A B (f : A -> B) (l : list A) :
  enumerate (map f l) = map (fun ix => (fst ix, f (snd ix))) (enumerate l).
Proof.
  unfold enumerate. rewrite length_map.
  generalize (seq 0 (length l)) as ns.
  induction l as [|x l IH]; intros [|k ns]; simpl; try reflexivity.
  now rewrite IH.
Qed.

Lemma In_enumerate A (l : list A) (x : A) :
  In x l -> exists i, In (i, x) (enumerate l).
Proof.
  unfold enumerate. generalize 0 as start.
  induction l as [|y l IH]; intros start; simpl; [intros []|].
  intros [->|H].
  - exists start. now left.
  - destruct (IH (S start) H) as [i Hi]. exists i. now right.
Qed.

Lemma enumerate_In A (l : list A) (i : nat) (x : A) :
  In (i, x) (enumerate l) -> In x l.
Proof. apply in_combine_r. Qed.

Section SkippedDirectories.
Context {R : Runtime}.

Lemma name_prune x : name (prune x) = name x.
Proof. now destruct x. Qed.

Lemma is_dir_prune x : is_dir (prune x) = is_dir x.
Proof. now destruct x. Qed.

Lemma shown_prune x : shown (prune x) = shown x.
Proof. unfold shown. now rewrite is_dir_prune, name_prune. Qed.

Lemma sort_key_prune x : sort_key (prune x) = sort_key x.
Proof. unfold sort_key. now rewrite is_dir_prune, name_prune. Qed.

Lemma filter_sorted_items (p : entry -> bool) (listing : list entry) :
  filter p (sorted_items listing) = sorted_items (filter p listing).
Proof.
  unfold sorted_items. apply filter_sorted.
  - exact key_lt_le.
  - exact key_le_trans.
Qed.

Lemma filter_shown_prune (l : list entry) :
  filter shown (map prune l) = map prune (filter shown l).
Proof.
  rewrite filter_map. f_equal. apply filter_ext. intros x. apply shown_prune.
Qed.

(** The sort is stable: entries of one key keep the order of the listing. *)
Lemma sorted_items_stable (p : entry -> bool) (listing : list entry) :
  (forall x y, In x listing -> In y listing -> p x = true -> p y = true ->
               sort_key x = sort_key y) ->
  filter p (sorted_items listing) = filter p listing.
Proof.
  intros H. rewrite filter_sorted_items. apply sorted_fixed.
  intros x y Hx Hy. apply filter_In in Hx, Hy.
  rewrite (H x y); try tauto. apply key_lt_irrefl.
Qed.

(** The items the traversals see in a pruned directory. *)
Lemma sorted_items_prune (listing : list entry) :
  sorted_items (filter shown (map prune listing))
  = map prune (filter shown (sorted_items listing)).
Proof.
  rewrite <- filter_sorted_items, <- filter_shown_prune. f_equal.
  unfold sorted_items.
  rewrite sorted_map. f_equal. apply sorted_ext, sort_key_prune.
Qed.

Lemma unskipped_prune (x : entry) : unskipped (prune x) = true.
Proof.
  induction x as [| n listing IH | |] using entry_induction; try reflexivity.
  simpl. apply forallb_forall. intros y Hy.
  apply filter_In in Hy. destruct Hy as [Hy Hs]. rewrite Hs. simpl.
  apply in_map_iff in Hy. destruct Hy as (x & <- & Hx).
  rewrite Forall_forall in IH. now apply IH.
Qed.

Lemma generate_tree_structure_prune (x : entry) :
  forall prefix is_last output_lines,
    generate_tree_structure (prune x) prefix is_last output_lines
    = generate_tree_structure x prefix is_last output_lines.
Proof.
  induction x as [| n listing IH | |] using entry_induction; try reflexivity.
  intros prefix is_last out. cbn [prune].
  rewrite !generate_tree_structure_rows. cbv zeta.
  rewrite sorted_items_prune, filter_shown_prune, filter_idem.
  rewrite enumerate_map, length_map, flat_map_concat_map, map_map.
  rewrite <- flat_map_concat_map. f_equal.
  apply flat_map_ext_in. intros [i y] Hy. cbn [fst snd].
  apply enumerate_In, filter_In, proj1 in Hy.
  apply (proj1 (sorted_In sort_key key_lt listing y)) in Hy.
  rewrite Forall_forall in IH. unfold tree_row.
  now rewrite is_dir_prune, name_prune, (IH y Hy).
Qed.

Lemma collect_item_hidden rel (x : entry) :
  shown x = false -> collect_item rel x = [].
Proof.
  unfold shown, collect_item. intros H. apply negb_false_iff in H. now rewrite H.
Qed.

Lemma collect_file_contents_prune (x : entry) :
  forall rel, collect_file_contents (prune x) rel = collect_file_contents x rel.
Proof.
  induction x as [| n listing IH | |] using entry_induction; try reflexivity.
  intros rel. cbn [prune]. rewrite !collect_file_contents_items.
  rewrite sorted_items_prune, flat_map_concat_map, map_map, <- flat_map_concat_map.
  rewrite <- (flat_map_filter_nil (f := collect_item rel) (p := shown))
    by apply collect_item_hidden.
  apply flat_map_ext_in. intros y Hy.
  apply filter_In, proj1 in Hy.
  apply (proj1 (sorted_In sort_key key_lt listing y)) in Hy.
  rewrite Forall_forall in IH. unfold collect_item.
  rewrite is_dir_prune, name_prune.
  destruct y as [n' st data|n' l'|n' e|n']; try reflexivity.
  cbn [is_dir name]. destruct (true && should_skip_directory n'); [reflexivity|].
  apply (IH _ Hy).
Qed.

(** C4: a directory whose enumeration raises gives the tree builder one
    marker line, [[Permission Denied]] for a permission error and
    [[Error: ...]] with the error's text for any other (such as that of
    listing a path that is no directory), and gives the content collector
    nothing; as an item of a listed directory it has its own line followed
    by that marker in the tree, and no entry among the contents, as in the
    example with the unreadable directories [secret] and [stale].  Both are
    total: nothing is raised. *)
Theorem enumeration_errors_recorded_or_dropped :
  (forall n msg prefix is_last output_lines,
      generate_tree_structure (NoList n (PermissionError msg))
                              prefix is_last output_lines
      = output_lines ++ [prefix ++ lit "[Permission Denied]"])
  /\ (forall n msg prefix is_last output_lines,
         generate_tree_structure (NoList n (OtherError msg))
                                 prefix is_last output_lines
         = output_lines ++ [prefix ++ lit "[Error: " ++ msg ++ lit "]"])
  /\ (forall n e rel, collect_file_contents (NoList n e) rel = [])
  /\ (forall n st_size data prefix is_last output_lines rel,
         generate_tree_structure (File n st_size data) prefix is_last output_lines
         = output_lines ++ [prefix ++ lit "[Error: " ++ strerror_notdir n ++ lit "]"]
         /\ collect_file_contents (File n st_size data) rel = [])
  /\ (forall n e prefix is_last_item,
         exists line marker,
           tree_row prefix is_last_item (NoList n e) = [line; marker]
           /\ generate_tree_structure
                (NoList n e)
                (prefix ++ (if is_last_item then TREE_SPACE else TREE_VERTICAL))
                is_last_item [] = [marker])
  /\ (forall n e rel, collect_item rel (NoList n e) = [])
  /\ (forall n listing prefix is_last output_lines,
         generate_tree_structure (Dir n listing) prefix is_last output_lines =
         let items := filter shown (sorted_items listing) in
         output_lines ++
           flat_map (fun ix => tree_row prefix
                                        (Nat.eqb (fst ix) (length items - 1)) (snd ix))
                    (enumerate items))
  /\ (forall n listing rel,
         collect_file_contents (Dir n listing) rel =
         flat_map (collect_item rel) (sorted_items listing))
  /\ tree_of (R := posix) example_guarded
     = [ TREE_BRANCH ++ lit "secret/";
         TREE_VERTICAL ++ lit "[Permission Denied]";
         TREE_BRANCH ++ lit "stale/";
         TREE_VERTICAL ++ lit "[Error: [Errno 116] Stale file handle]";
         TREE_BRANCH ++ lit "README";
         TREE_LAST ++ lit "sock" ]
  /\ contents_of (R := posix) example_guarded = [(lit "README", lit "hello")].
Proof.
  repeat split; try (vm_compute; reflexivity); try reflexivity.
  - intros n e prefix is_last_item. unfold tree_row. cbn [is_dir].
    destruct e as [m|m]; cbn [generate_tree_structure app]; eauto.
  - intros n e rel. unfold collect_item. cbn [is_dir name andb].
    now destruct (should_skip_directory n).
  - intros. apply generate_tree_structure_rows.
  - intros. apply collect_file_contents_items.
Qed.

(** C6: a directory is skipped exactly when its name is in the skip list
    or starts with a dot; such a directory gets no turn in either
    traversal, and both give on a file system what they give on it with
    every skipped directory, and so all that lies below one, taken away:
    two file systems that differ only there have the same tree and the same
    contents. *)
Theorem skipped_directories_not_entered :
  (forall dir_name,
      should_skip_directory dir_name = true <->
      In dir_name SKIP_DIRECTORIES \/ exists rest, dir_name = DOT :: rest)
  /\ (forall d rel,
         is_dir d = true -> should_skip_directory (name d) = true ->
         shown d = false /\ collect_item rel d = [])
  /\ (forall root, unskipped (prune root) = true)
  /\ (forall root prefix is_last output_lines,
         generate_tree_structure (prune root) prefix is_last output_lines
         = generate_tree_structure root prefix is_last output_lines)
  /\ (forall root rel,
         collect_file_contents (prune root) rel = collect_file_contents root rel)
  /\ (forall root root',
         prune root = prune root' ->
         tree_of root = tree_of root' /\ contents_of root = contents_of root').
Proof.
  split; [|split; [|split; [|split; [|split]]]].
  - intros d. unfold should_skip_directory.
    rewrite orb_true_iff, str_in_In. apply or_iff_compat_l.
    destruct d as [|c rest]; simpl.
    + split; [discriminate | intros [? [=]]].
    + rewrite char_eqb_eq. split; [intros ->; eauto | now intros [? [= -> _]]].
  - intros d rel Hd Hs.
    assert (H : shown d = false) by (unfold shown; now rewrite Hd, Hs).
    split; [assumption | now apply collect_item_hidden].
  - apply unskipped_prune.
  - apply generate_tree_structure_prune.
  - apply collect_file_contents_prune.
  - intros root root' E. unfold tree_of, contents_of. split.
    + now rewrite <- (generate_tree_structure_prune root),
                  <- (generate_tree_structure_prune root'), E.
    + now rewrite <- (collect_file_contents_prune root),
                  <- (collect_file_contents_prune root'), E.
Qed.

Lemma below_is_dir root parts x : below root parts x -> is_dir root = true.
Proof. now destruct 1. Qed.

Lemma tree_row_head (prefix : str) (is_last_item : bool) (x : entry) :
  In (prefix ++ (if is_last_item then TREE_LAST else TREE_BRANCH)
             ++ name x ++ (if is_dir x then lit "/" else []))
     (tree_row prefix is_last_item x).
Proof.
  unfold tree_row. destruct (is_dir x); left; [reflexivity|].
  now rewrite app_nil_r.
Qed.

Lemma below_listed root parts x :
  below root parts x -> shown x = true ->
  forall prefix is_last output_lines,
    listed x (generate_tree_structure root prefix is_last output_lines).
Proof.
  intros Hb Hx. induction Hb as [n listing x Hin|n listing d parts x Hin Hd Hb IH];
    intros prefix is_last out; rewrite generate_tree_structure_rows; cbv zeta.
  - assert (Hi : In x (filter shown (sorted_items listing)))
      by (apply filter_In; split;
          [now apply (proj2 (sorted_In sort_key key_lt listing _))|assumption]).
    apply In_enumerate in Hi. destruct Hi as [i Hi].
    eexists prefix, _. apply in_or_app. right.
    apply in_flat_map. eexists. split; [exact Hi|]. apply tree_row_head.
  - assert (Hi : In d (filter shown (sorted_items listing)))
      by (apply filter_In; split;
          [now apply (proj2 (sorted_In sort_key key_lt listing _))|assumption]).
    apply In_enumerate in Hi. destruct Hi as [i Hi].
    set (len := length (filter shown (sorted_items listing))).
    destruct (IH Hx (prefix ++ (if Nat.eqb i (len - 1) then TREE_SPACE else TREE_VERTICAL))
                 (Nat.eqb i (len - 1)) []) as (p & l & Hl).
    exists p, l. apply in_or_app. right.
    apply in_flat_map. eexists. split; [exact Hi|]. cbn [fst snd].
    unfold tree_row. rewrite (below_is_dir Hb). now right.
Qed.

(** C8, amended: the lines of a directory are, for its items that are not
    skipped directories, in sorted order, each item's line followed by the
    lines of what lies below it; so every entry below the root that is
    neither a skipped directory nor below one has a line of the tree,
    whether or not the classifier includes its content. *)
Theorem tree_covers_unskipped_entries :
  (forall n listing prefix is_last output_lines,
      generate_tree_structure (Dir n listing) prefix is_last output_lines =
      let items := filter shown (sorted_items listing) in
      output_lines ++
        flat_map (fun ix => tree_row prefix
                                     (Nat.eqb (fst ix) (length items - 1)) (snd ix))
                 (enumerate items))
  /\ (forall (prefix : str) (is_last_item : bool) (x : entry),
         exists lines,
           tree_row prefix is_last_item x =
           (prefix ++ (if is_last_item then TREE_LAST else TREE_BRANCH)
                   ++ name x ++ (if is_dir x then lit "/" else [])) :: lines
           /\ lines =
              if is_dir x
              then generate_tree_structure
                     x (prefix ++ (if is_last_item then TREE_SPACE else TREE_VERTICAL))
                     is_last_item []
              else [])
  /\ (forall root parts x,
         below root parts x -> shown x = true -> listed x (tree_of root))
  /\ (forall root parts n st_size data,
         below root parts (File n st_size data) ->
         should_include_file n st_size = false ->
         listed (File n st_size data) (tree_of root)).
Proof.
  split; [|split; [|split]].
  - intros. apply generate_tree_structure_rows.
  - intros prefix is_last_item x. unfold tree_row.
    destruct (is_dir x); eexists; split; try reflexivity.
    now rewrite app_nil_r.
  - intros root parts x Hb Hx. now apply (below_listed Hb).
  - intros root parts n st data Hb _. now apply (below_listed Hb).
Qed.

End SkippedDirectories.

(** ** Ordering of a listing *)




(** ** Relative paths *)





(** ** Content collector: what is collected *)


Section Collected.
Context {R : Runtime}.




Lemma collect_item_origin rel item p c :
  In (p, c) (collect_item rel item) ->
  (exists n st_size data,
      item = File n st_size data /\ should_include_file n st_size = true
      /\ p = path_str (rel ++ [n]) /\ c = read_file_content (open_read data))
  \/ (is_dir item = true /\ shown item = true
      /\ In (p, c) (collect_file_contents item (rel ++ [name item]))).
Proof.
  unfold collect_item, shown.
  destruct (is_dir item && should_skip_directory (name item)) eqn:E; [intros []|].
  destruct item as [n st data|n l|n e|n]; cbn [is_dir name] in *.
  - destruct (should_include_file n st) eqn:I; [|intros []].
    intros [[= <- <-]|[]]. left. now exists n, st, data.
  - intros H. right. split; [reflexivity|]. split; [reflexivity | exact H].
  - intros H. right. split; [reflexivity|]. split; [reflexivity | exact H].
  - intros [].
Qed.

Lemma collect_origin (root : entry) :
  forall rel p c,
    In (p, c) (collect_file_contents root rel) ->
    exists parts n st_size data,
      below root parts (File n st_size data)
      /\ should_include_file n st_size = true
      /\ p = path_str (rel ++ parts)
      /\ c = read_file_content (open_read data).
Proof.
  induction root as [| n listing IH | |] using entry_induction;
    try (intros rel p c []).
  intros rel p c. rewrite collect_file_contents_items.
  intros H. apply in_flat_map in H. destruct H as (item & Hitem & H).
  apply (proj1 (sorted_In sort_key key_lt listing item)) in Hitem.
  apply collect_item_origin in H.
  destruct H as [(m & st & data & -> & Hinc & -> & ->)|(Hd & Hs & H)].
  - exists [m], m, st, data. repeat split; try assumption.
    exact (below_item n Hitem).
  - rewrite Forall_forall in IH.
    destruct (IH item Hitem _ _ _ H) as (parts & m & st & data & Hb & Hinc & -> & ->).
    exists (name item :: parts), m, st, data. repeat split; try assumption.
    + now apply below_deeper.
    + now rewrite <- app_assoc.
Qed.







End Collected.

(** ** Exporters: a file that cannot be embedded *)

Section ExporterFacts.
Context {R : Runtime}.
Variable docx_error : str -> option str.
Variable Paragraph_error : str -> option str.
Variable Preformatted_error : str -> option str.
Variable build_error : list block -> option str.

(** The Word exporter puts a diagnostic paragraph in the place of a
    content that cannot be added, and goes on. *)
Lemma word_file_recovers doc index relative_path content e :
  docx_error content = Some e ->
  docx_error (repeat 9472%N 60) = None ->
  docx_error (lit "File: " ++ relative_path) = None ->
  docx_error (lit "[Error adding content: " ++ e ++ lit "]") = None ->
  docx_error [] = None ->
  word_file docx_error doc index (relative_path, content) =
  ret (doc ++ [Paragraph (repeat 9472%N 60)]
           ++ [Paragraph (lit "File: " ++ relative_path)]
           ++ [Paragraph (repeat 9472%N 60)]
           ++ [Paragraph (lit "[Error adding content: " ++ e ++ lit "]")]
           ++ [Paragraph []]
           ++ (if Nat.eqb (index mod 3) 0 then [PageBreak] else [])).
Proof.
  intros Hc Hr Hf He Hn.
  assert (ok : forall d t, docx_error t = None ->
                           add_paragraph docx_error d t = inr (d ++ [Paragraph t]))
    by (intros d t H; unfold add_paragraph; now rewrite H).
  cbv beta iota delta [word_file].
  rewrite (ok _ _ Hr). cbn [bind].
  rewrite (ok _ _ Hf). cbn [bind].
  rewrite (ok _ _ Hr). cbn [bind].
  unfold add_paragraph at 1. rewrite Hc. cbn [try_except raise].
  rewrite (ok _ _ He). cbn [bind].
  rewrite (ok _ _ Hn). cbn [bind].
  unfold add_page_break, ret.
  destruct (Nat.eqb (index mod 3) 0); rewrite <- ?app_assoc; simpl;
    rewrite ?app_nil_r; reflexivity.
Qed.

Lemma pdf_file_aborts elements index relative_path content e :
  Preformatted_error (escape_markup content) = Some e ->
  exists e', pdf_file Paragraph_error Preformatted_error elements index
                      (relative_path, content) = raise e'.
Proof.
  intros H.
  cbv beta iota zeta delta [pdf_file append_Paragraph append_Preformatted bind ret raise].
  rewrite H.
  repeat match goal with
         | |- context [match Paragraph_error ?t with _ => _ end] =>
             destruct (Paragraph_error t)
         end; eauto.
Qed.

Lemma pdf_files_abort file_contents :
  forall elements index relative_path content e,
    In (relative_path, content) file_contents ->
    Preformatted_error (escape_markup content) = Some e ->
    exists e', pdf_files Paragraph_error Preformatted_error elements index
                         file_contents = raise e'.
Proof.
  induction file_contents as [|file rest IH];
    intros elements index rel content e Hin He; [destruct Hin|].
  cbn [pdf_files]. destruct Hin as [->|Hin].
  - destruct (pdf_file_aborts elements index rel He) as [e' ->]. now exists e'.
  - destruct (pdf_file _ _ elements index file) as [e'|elements']; cbn [bind].
    + now exists e'.
    + exact (IH elements' (S index) rel content e Hin He).
Qed.

(** The PDF exporter has no handler around the embedding of a content: if
    one collected content cannot be embedded the run ends with the
    exception. *)
Lemma generate_pdf_document_aborts cwd current_dir relative_path content e :
  In (relative_path, content) (contents_of current_dir) ->
  Preformatted_error (escape_markup content) = Some e ->
  exists e', generate_pdf_document Paragraph_error Preformatted_error
                                   build_error cwd current_dir = raise e'.
Proof.
  intros Hin He. unfold generate_pdf_document.
  repeat (cbv beta zeta;
          match goal with
          | |- exists e', bind (pdf_files _ _ _ _ _) _ = _ =>
              let E := fresh "E" in
              edestruct pdf_files_abort as [e' E]; [exact Hin | exact He |];
              rewrite E; now exists e'
          | |- exists e', bind ?m _ = _ =>
              let x := fresh "x" in
              destruct m as [x|x]; cbn [bind]; [now exists x|]
          end).
Qed.

End ExporterFacts.


(** ** Concrete runs *)


Lemma skipped_directories_not_entered_witness :
  should_skip_directory (lit "node_modules") = true
  /\ should_skip_directory (lit ".github") = true
  /\ (shown (Dir (lit "node_modules") [text_file "x.js" "x()"]) = false
      /\ collect_item (R := posix) []
                      (Dir (lit "node_modules") [text_file "x.js" "x()"]) = [])
  /\ (tree_of (R := posix) example_repo = tree_of (R := posix) example_repo_grown
      /\ contents_of (R := posix) example_repo
         = contents_of (R := posix) example_repo_grown).
Proof.
  destruct (skipped_directories_not_entered (R := posix))
    as (Hiff & Hskip & _ & _ & _ & Hsame).
  assert (H1 : should_skip_directory (lit "node_modules") = true).
  { apply (proj2 (Hiff (lit "node_modules"))). left. vm_compute. tauto. }
  split; [exact H1|]. split; [|split].
  - apply (proj2 (Hiff (lit ".github"))). right. eexists. vm_compute. reflexivity.
  - apply (Hskip (Dir (lit "node_modules") [text_file "x.js" "x()"]) []);
      [reflexivity | exact H1].
  - apply (Hsame example_repo example_repo_grown). vm_compute. reflexivity.
Defined.

Lemma tree_covers_unskipped_entries_witness :
  listed (text_file "main.py" "print(1)") (tree_of (R := posix) example_repo)
  /\ listed (text_file "image.png" "PNG") (tree_of (R := posix) example_repo).
Proof.
  destruct (tree_covers_unskipped_entries (R := posix)) as (_ & _ & Hshown & Hexcluded).
  split.
  - apply (Hshown example_repo [lit "src"; lit "main.py"]); [|reflexivity].
    apply (@below_deeper (lit "repo") _ (Dir (lit "src") [text_file "main.py" "print(1)"])
                         [lit "main.py"]);
      [simpl; tauto | reflexivity |].
    apply (@below_item (lit "src") _ (text_file "main.py" "print(1)")). simpl. tauto.
  - apply (Hexcluded example_repo [lit "image.png"] (lit "image.png")
                     (Some 3%N) (inr (list_byte_of_string "PNG")));
      [|vm_compute; reflexivity].
    apply (@below_item (lit "repo") _ (text_file "image.png" "PNG")). simpl. tauto.
Defined.

(** C8 as stated fails: [node_modules] lies directly below the root, under
    no skipped directory, and the tree has no line for it. *)
Lemma skipped_directory_has_no_line :
  let node_modules := Dir (lit "node_modules") [text_file "x.js" "x()"] in
  below example_repo [lit "node_modules"] node_modules
  /\ tree_of (R := posix) example_repo
     = [ TREE_BRANCH ++ lit "src/";
         TREE_VERTICAL ++ TREE_LAST ++ lit "main.py";
         TREE_LAST ++ lit "image.png" ]
  /\ ~ listed node_modules (tree_of (R := posix) example_repo).
Proof.
  cbv zeta.
  assert (E : tree_of (R := posix) example_repo
              = [ TREE_BRANCH ++ lit "src/";
                  TREE_VERTICAL ++ TREE_LAST ++ lit "main.py";
                  TREE_LAST ++ lit "image.png" ])
    by (vm_compute; reflexivity).
  split; [|split; [exact E|]].
  - apply (@below_item (lit "repo") _ (Dir (lit "node_modules") [text_file "x.js" "x()"])).
    simpl. tauto.
  - rewrite E. intros (prefix & is_last_item & H).
    cbn [In is_dir name] in H.
    destruct H as [H|[H|[H|[]]]]; apply (f_equal (@length char)) in H;
      rewrite !length_app in H; destruct is_last_item; cbn in H; lia.
Qed.

(** ** Sanitizer and escaping: further properties *)

Lemma filter_all A (p : A -> bool) (l : list A) :
  Forall (fun x => p x = true) (filter p l).
Proof.
  apply Forall_forall. intros x Hx. now apply filter_In in Hx.
Qed.

Lemma filter_fixed A (p : A -> bool) (l : list A) :
  filter p l = l <-> Forall (fun x => p x = true) l.
Proof.
  split.
  - intros E. rewrite <- E. apply filter_all.
  - induction 1 as [|x l Hx _ IH]; simpl; [reflexivity|]. now rewrite Hx, IH.
Qed.

Lemma filter_shorter A (p : A -> bool) (l : list A) :
  length (filter p l) <= length l.
Proof.
  induction l as [|x l IH]; simpl; [lia|]. destruct (p x); simpl; lia.
Qed.

Lemma sanitize_xml_content_keep (s : str) :
  sanitize_xml_content s = filter (fun c => negb (xml_illegal c)) s.
Proof.
  rewrite sanitize_xml_content_filter. unfold sanitize_spec.
  apply filter_ext. intros c. now rewrite dropped_xml_illegal.
Qed.

(** X1: what the sanitizer returns holds none of the characters of its
    class, is no longer than the text, and is the text itself exactly when
    the text holds none of them. *)
Theorem sanitized_text_is_clean (s : str) :
  Forall (fun c => xml_illegal c = false) (sanitize_xml_content s)
  /\ (sanitize_xml_content s = s <-> Forall (fun c => xml_illegal c = false) s)
  /\ length (sanitize_xml_content s) <= length s.
Proof.
  rewrite sanitize_xml_content_keep. split; [|split].
  - eapply Forall_impl; [|apply filter_all]. intros c. apply negb_true_iff.
  - split; intros H.
    + apply filter_fixed in H. revert H. apply Forall_impl.
      intros c. apply negb_true_iff.
    + apply filter_fixed. revert H. apply Forall_impl.
      intros c. apply negb_true_iff.
  - apply filter_shorter.
Qed.

Lemma sanitize_xml_content_app (a b : str) :
  sanitize_xml_content (a ++ b) = sanitize_xml_content a ++ sanitize_xml_content b.
Proof. rewrite !sanitize_xml_content_keep. apply filter_app. Qed.

(** X2: sanitizing a concatenation is concatenating the sanitized parts,
    and sanitizing lines joined by line feeds, as the exporters do with the
    tree, is joining the sanitized lines. *)
Theorem sanitize_distributes_over_lines (a b : str) (lines : list str) :
  sanitize_xml_content (a ++ b) = sanitize_xml_content a ++ sanitize_xml_content b
  /\ sanitize_xml_content (join [10%N] lines)
     = join [10%N] (map sanitize_xml_content lines).
Proof.
  split; [apply sanitize_xml_content_app|].
  induction lines as [|l [|l' lines] IH]; try reflexivity.
  change (join [10%N] (l :: l' :: lines))
    with (l ++ [10%N] ++ join [10%N] (l' :: lines)).
  rewrite !sanitize_xml_content_app, IH. reflexivity.
Qed.

Lemma replace_char_flat_map (old : char) (new : str) (f : char -> str) (s : str) :
  replace_char old new (flat_map f s)
  = flat_map (fun c => replace_char old new (f c)) s.
Proof.
  unfold replace_char. induction s as [|c s IH]; simpl; [reflexivity|].
  now rewrite flat_map_app, IH.
Qed.

Lemma escape_markup_code (s : str) : escape_markup s = flat_map markup_code s.
Proof.
  unfold escape_markup. unfold replace_char at 3.
  rewrite !replace_char_flat_map. apply flat_map_ext_in. intros c _.
  unfold markup_code, replace_char, char_eqb.
  destruct (N.eqb_spec c 38) as [->|n38]; [vm_compute; reflexivity|].
  cbn [flat_map app].
  destruct (N.eqb_spec c 60) as [->|n60]; [vm_compute; reflexivity|].
  cbn [flat_map app].
  destruct (N.eqb_spec c 62) as [->|n62]; [vm_compute; reflexivity|].
  reflexivity.
Qed.

Lemma unescape_markup_code (c : char) (s : str) :
  unescape_markup (markup_code c ++ s) = c :: unescape_markup s.
Proof.
  unfold markup_code, char_eqb.
  destruct (N.eqb_spec c 38) as [->|n38]; [reflexivity|].
  destruct (N.eqb_spec c 60) as [->|n60]; [reflexivity|].
  destruct (N.eqb_spec c 62) as [->|n62]; [reflexivity|].
  cbn [app unescape_markup]. unfold char_eqb.
  destruct (N.eqb_spec c 38); [contradiction | reflexivity].
Qed.

(** X3: escaping for the PDF markup replaces each of [&], [<] and [>] by
    its entity and nothing else, whatever the order of the three passes
    could have done to the ampersands of the entities; the result holds no
    [<] and no [>], the text can be read back from it, and escaping goes
    through concatenation. *)
Theorem escape_markup_entities :
  (forall s, escape_markup s = flat_map markup_code s)
  /\ (forall s, ~ In 60%N (escape_markup s) /\ ~ In 62%N (escape_markup s))
  /\ (forall s, unescape_markup (escape_markup s) = s)
  /\ (forall a b, escape_markup (a ++ b) = escape_markup a ++ escape_markup b).
Proof.
  split; [exact escape_markup_code|]. split; [|split].
  - intros s. rewrite escape_markup_code.
    split; intros H; apply in_flat_map in H; destruct H as (c & _ & H);
      unfold markup_code, char_eqb in H;
      destruct (N.eqb_spec c 38); [|destruct (N.eqb_spec c 60);
                                     [|destruct (N.eqb_spec c 62)]| |
                                   destruct (N.eqb_spec c 60);
                                     [|destruct (N.eqb_spec c 62)]];
      cbn in H; intuition congruence.
  - intros s. rewrite escape_markup_code.
    induction s as [|c s IH]; [reflexivity|].
    cbn [flat_map]. now rewrite unescape_markup_code, IH.
  - intros a b. rewrite !escape_markup_code. apply flat_map_app.
Qed.

(** ** Classifier: further properties *)

Lemma ascii_lower_char_dot (c : char) : char_eqb (ascii_lower_char c) DOT = char_eqb c DOT.
Proof.
  unfold ascii_lower_char, in_range, char_eqb, DOT.
  destruct (N.leb_spec 65 c), (N.leb_spec c 90); simpl; try reflexivity.
  destruct (N.eqb_spec (c + 32) 46), (N.eqb_spec c 46); try reflexivity; lia.
Qed.

Lemma rfind_ascii_lower (s : str) : rfind DOT (ascii_lower s) = rfind DOT s.
Proof.
  induction s as [|c s IH]; simpl; [reflexivity|].
  fold (ascii_lower s). now rewrite IH, ascii_lower_char_dot.
Qed.

Lemma suffix_ascii_lower (n : str) : suffix (ascii_lower n) = ascii_lower (suffix n).
Proof.
  unfold suffix. rewrite rfind_ascii_lower. unfold ascii_lower at 1.
  rewrite length_map. destruct (rfind DOT n) as [i|]; [|reflexivity].
  destruct (Nat.ltb 0 i && Nat.ltb i (length n - 1)); [|reflexivity].
  unfold ascii_lower. now rewrite skipn_map.
Qed.

Lemma is_ascii_skipn (i : nat) (n : str) : is_ascii n = true -> is_ascii (skipn i n) = true.
Proof.
  unfold is_ascii. rewrite !forallb_forall. intros H c Hc.
  apply H. revert Hc. clear. revert n.
  induction i as [|i IH]; intros [|x n]; simpl; auto.
Qed.

Lemma is_ascii_suffix (n : str) : is_ascii n = true -> is_ascii (suffix n) = true.
Proof.
  intros H. unfold suffix. destruct (rfind DOT n) as [i|]; [|reflexivity].
  destruct (Nat.ltb 0 i && Nat.ltb i (length n - 1)); [|reflexivity].
  now apply is_ascii_skipn.
Qed.

Section ClassifierFacts.
Context {R : Runtime}.

(** On an ASCII name the classifier sees the lowercase name only. *)
Lemma should_include_file_ascii (file_name : str) (st_size : option N) :
  is_ascii file_name = true ->
  should_include_file file_name st_size =
  let ext := suffix (ascii_lower file_name) in
  negb (str_in ext BINARY_EXTENSIONS)
  && (str_in ext TEXT_EXTENSIONS
      || (negb (Nat.ltb 0 (length ext))
          && str_in (ascii_lower file_name) CONVENTIONAL_NAMES)).
Proof.
  intros H. unfold should_include_file. cbv zeta.
  rewrite (lower_ascii H), (lower_ascii (is_ascii_suffix H)), <- suffix_ascii_lower.
  destruct st_size as [size|];
    repeat match goal with |- context [if ?b then _ else _] => destruct b end;
    reflexivity.
Qed.

(** X4: two ASCII file names that differ in the case of their letters only
    are classified alike. *)
Theorem classifier_ignores_case (n1 n2 : str) (st1 st2 : option N) :
  is_ascii n1 = true -> is_ascii n2 = true ->
  ascii_lower n1 = ascii_lower n2 ->
  should_include_file n1 st1 = should_include_file n2 st2.
Proof.
  intros H1 H2 E. rewrite !should_include_file_ascii by assumption.
  now rewrite E.
Qed.

End ClassifierFacts.

Lemma classifier_ignores_case_witness :
  should_include_file (R := posix) (lit "ReadMe.MD") (Some 10%N)
  = should_include_file (R := posix) (lit "README.md") None.
Proof.
  apply (classifier_ignores_case (R := posix)); reflexivity.
Defined.

Lemma rfind_split (c : char) (s : str) (i : nat) :
  rfind c s = Some i ->
  exists pre post, s = pre ++ c :: post /\ length pre = i /\ ~ In c post.
Proof.
  revert i. induction s as [|x s IH]; intros i; simpl; [discriminate|].
  destruct (rfind c s) as [j|] eqn:E.
  - intros [= <-]. destruct (IH j eq_refl) as (pre & post & -> & <- & Hp).
    exists (x :: pre), post. repeat split; auto.
  - destruct (char_eqb x c) eqn:Ex; [|discriminate]. intros [= <-].
    apply char_eqb_eq in Ex. subst x. exists [], s. repeat split.
    clear IH. induction s as [|y s IHs]; [intros []|].
    simpl in E. destruct (rfind c s) as [j|]; [discriminate|].
    destruct (char_eqb y c) eqn:Ey; [discriminate|].
    intros [->|H]; [|now apply IHs].
    unfold char_eqb in Ey. now rewrite N.eqb_refl in Ey.
Qed.

(** A suffix is empty, or a dot followed by one character or more, none of
    them a dot. *)
Lemma suffix_shape (n : str) :
  suffix n = []
  \/ exists rest, suffix n = DOT :: rest /\ rest <> [] /\ ~ In DOT rest.
Proof.
  unfold suffix. destruct (rfind DOT n) as [i|] eqn:E; [|now left].
  destruct (Nat.ltb 0 i && Nat.ltb i (length n - 1)) eqn:B; [|now left].
  right. apply rfind_split in E. destruct E as (pre & post & -> & <- & Hp).
  exists post. rewrite skipn_app, skipn_all, Nat.sub_diag. simpl.
  repeat split; [|assumption].
  intros ->. apply andb_true_iff in B. destruct B as [_ B].
  apply Nat.ltb_lt in B. rewrite length_app in B. simpl in B. lia.
Qed.

Lemma str_in_dotted (x : str) (T : list str) :
  ~ In [] T -> x = [] \/ startswith_dot x = true ->
  str_in x T = str_in x (filter startswith_dot T).
Proof.
  intros HT Hx. unfold str_in.
  induction T as [|e T IH]; simpl; [reflexivity|].
  rewrite IH by (intros F; apply HT; now right).
  destruct (startswith_dot e) eqn:E; simpl; [reflexivity|].
  assert (N : str_eqb x e = false); [|now rewrite N].
  destruct (str_eqb x e) eqn:Ex; [|reflexivity].
  apply str_eqb_eq in Ex. subst e.
  destruct Hx as [->|Hx]; [|congruence].
  exfalso. apply HT. now left.
Qed.

(** X5: the extension the classifier looks up is empty or starts with a
    dot, so the entries [Dockerfile], [Makefile], [requirements.txt] and
    [package.json] of the table of text extensions never match: for an
    ASCII file name the lookup gives what it gives on the table without
    them. *)
Theorem text_entries_without_dot_never_match {R : Runtime} (file_name : str) :
  is_ascii file_name = true ->
  let ext := lower (suffix file_name) in
  (ext = [] \/ startswith_dot ext = true)
  /\ str_in ext TEXT_EXTENSIONS = str_in ext (filter startswith_dot TEXT_EXTENSIONS)
  /\ filter (fun e => negb (startswith_dot e)) TEXT_EXTENSIONS
     = map lit ["Dockerfile"; "Makefile"; "requirements.txt"; "package.json"]%string.
Proof.
  intros H ext.
  assert (Hext : ext = [] \/ startswith_dot ext = true).
  { unfold ext. rewrite (lower_ascii (is_ascii_suffix H)).
    destruct (suffix_shape file_name) as [->|(rest & -> & _)]; [now left|].
    right. reflexivity. }
  split; [exact Hext|]. split; [|vm_compute; reflexivity].
  apply str_in_dotted; [|exact Hext].
  vm_compute. intuition discriminate.
Qed.

Lemma text_entries_without_dot_never_match_witness :
  str_in (lower (Runtime := posix) (suffix (lit "Dockerfile"))) TEXT_EXTENSIONS
  = str_in (lower (Runtime := posix) (suffix (lit "Dockerfile")))
           (filter startswith_dot TEXT_EXTENSIONS).
Proof.
  apply (text_entries_without_dot_never_match
           (R := posix) (file_name := lit "Dockerfile")).
  reflexivity.
Defined.

(** X6: the entry [*.egg-info] of the skip list is a name, not a pattern: a
    directory whose name ends in [.egg-info] is skipped only when the name
    is that entry itself or starts with a dot. *)
Theorem egg_info_entry_is_literal (stem : str) :
  should_skip_directory (stem ++ lit ".egg-info") = true <->
  stem = lit "*" \/ startswith_dot (stem ++ lit ".egg-info") = true.
Proof.
  unfold should_skip_directory. rewrite orb_true_iff, str_in_In. split.
  - intros [H|H]; [|now right]. left.
    unfold SKIP_DIRECTORIES in H. cbn [map In] in H.
    repeat (destruct H as [H|H]; [|try contradiction]);
      repeat match goal with
             | E : _ = ?s ++ _ |- _ =>
                 is_var s; destruct s as [|? ?]; cbn in E;
                 [ try discriminate E
                 | first [discriminate E | injection E as ? E] ]
             end;
      subst; reflexivity.
  - intros [->|H]; [left; vm_compute; tauto | now right].
Qed.

(** ** Reader: further properties *)

Lemma universal_newlines_cons (c : char) (s : str) :
  universal_newlines (c :: s) =
  if N.eqb c 13
  then 10%N :: match s with
               | d :: r => if N.eqb d 10 then universal_newlines r
                           else universal_newlines s
               | [] => []
               end
  else c :: universal_newlines s.
Proof.
  destruct c as [|p]; [reflexivity|].
  do 4 (try (destruct p as [p|p|]); try reflexivity).
  destruct s as [|d r]; [reflexivity|].
  destruct d as [|p]; [reflexivity|].
  do 4 (try (destruct p as [p|p|]); try reflexivity).
Qed.

Lemma universal_newlines_no_cr (s : str) : ~ In 13%N (universal_newlines s).
Proof.
  assert (H : forall n s, length s <= n -> ~ In 13%N (universal_newlines s)).
  { clear s. induction n as [|n IH]; intros [|c s] L; simpl in L; try lia;
      try (intros []).
    rewrite universal_newlines_cons.
    destruct (N.eqb_spec c 13) as [->|Nc].
    - intros [F|F]; [discriminate|]. revert F.
      destruct s as [|d r]; [intros []|].
      destruct (N.eqb d 10); apply IH; simpl in *; lia.
    - intros [F|F]; [congruence|]. revert F. apply IH. lia. }
  exact (H (length s) s (le_n _)).
Qed.

Lemma read_bytes_text (data : list byte) :
  exists text,
    read_file_content (open_read (inr data))
    = sanitize_xml_content (universal_newlines text).
Proof.
  unfold read_file_content, encodings. cbn [read_loop open_read].
  destruct (decode utf_8 data); [eauto|].
  destruct (decode utf_8_sig data); [eauto|].
  cbn [decode latin_1_decode]. eauto.
Qed.

(** X7: the content read from a file whose bytes can be read holds none of
    the characters the sanitizer removes, and no carriage return: text mode
    turns every line ending into a line feed before the sanitizer sees it. *)
Theorem readable_file_content_is_clean (data : list byte) :
  let content := read_file_content (open_read (inr data)) in
  Forall (fun c => xml_illegal c = false) content /\ ~ In 13%N content.
Proof.
  cbv zeta. destruct (read_bytes_text data) as [text ->].
  rewrite sanitize_xml_content_keep. split.
  - eapply Forall_impl; [|apply filter_all]. intros c. apply negb_true_iff.
  - intros F. apply filter_In in F. destruct F as [F _].
    exact (universal_newlines_no_cr F).
Qed.

(** X8: a UTF-8 file that starts with a byte order mark keeps the mark,
    U+FEFF, as the first character of its content: UTF-8 comes before
    UTF-8 with signature in the list and decodes the mark as a character,
    so the encoding that would drop it is never the one that reads the
    file. *)
Theorem byte_order_mark_kept (data : list byte) (text : str) :
  decode utf_8 data = Some text ->
  decode utf_8_sig (xef :: xbb :: xbf :: data)%byte = Some text
  /\ read_file_content (open_read (inr (xef :: xbb :: xbf :: data)%byte))
     = 0xFEFF%N :: sanitize_xml_content (universal_newlines text).
Proof.
  intros H. unfold decode in H. split.
  - unfold decode. cbn. exact H.
  - unfold read_file_content, encodings. cbn [read_loop open_read].
    assert (E : decode utf_8 (xef :: xbb :: xbf :: data)%byte = Some (0xFEFF%N :: text)).
    { unfold decode. cbn. now rewrite H. }
    rewrite E, universal_newlines_cons. cbn [N.eqb Pos.eqb].
    now rewrite !sanitize_xml_content_keep.
Qed.

Lemma byte_order_mark_kept_witness :
  read_file_content (open_read (inr [xef; xbb; xbf; x68; x69]%byte))
  = 0xFEFF%N :: sanitize_xml_content (universal_newlines (lit "hi")).
Proof.
  apply (byte_order_mark_kept (data := [x68; x69]%byte) (text := lit "hi")).
  reflexivity.
Defined.

(** ** Order of a listing: further properties *)

Lemma StronglySorted_unique A (Rel : A -> A -> Prop) (l1 : list A) :
  forall l2,
    (forall a b, In a l1 -> In b l1 -> Rel a b -> Rel b a -> a = b) ->
    Permutation l1 l2 -> StronglySorted Rel l1 -> StronglySorted Rel l2 ->
    l1 = l2.
Proof.
  induction l1 as [|x l1 IH]; intros l2 Anti P S1 S2.
  - apply Permutation_nil in P. now subst.
  - destruct l2 as [|y l2];
      [apply Permutation_sym, Permutation_nil in P; discriminate|].
    inversion S1 as [|? ? S1' F1]; inversion S2 as [|? ? S2' F2]; subst.
    rewrite Forall_forall in F1, F2.
    assert (E : x = y).
    { assert (Hx : In x (y :: l2)) by (apply (Permutation_in _ P); now left).
      assert (Hy : In y (x :: l1))
        by (apply (Permutation_in _ (Permutation_sym P)); now left).
      destruct Hx as [->|Hx]; [reflexivity|].
      destruct Hy as [->|Hy]; [reflexivity|].
      apply Anti; [now left | now right | now apply F1 | now apply F2]. }
    subst y. f_equal. apply IH; try assumption.
    + intros a b Ha Hb. apply Anti; now right.
    + now apply Permutation_cons_inv in P.
Qed.

Lemma NoDup_map_injective A B (f : A -> B) (l : list A) (a b : A) :
  NoDup (map f l) -> In a l -> In b l -> f a = f b -> a = b.
Proof.
  induction l as [|x l IH]; simpl; [intros _ []|].
  intros N Ha Hb E. inversion N as [|? ? Nx N']; subst.
  destruct Ha as [->|Ha], Hb as [->|Hb]; auto.
  - exfalso. apply Nx. rewrite E. now apply in_map.
  - exfalso. apply Nx. rewrite <- E. now apply in_map.
Qed.

Section ListingOrder.
Context {R : Runtime}.

Lemma sorted_items_unique (l1 l2 : list entry) :
  Permutation l1 l2 -> NoDup (map sort_key l1) ->
  sorted_items l1 = sorted_items l2.
Proof.
  intros P N.
  apply (@StronglySorted_unique
           entry (fun a b => key_le (sort_key a) (sort_key b) = true)).
  - intros a b Ha Hb Hab Hba.
    apply (proj1 (sorted_In sort_key key_lt l1 a)) in Ha.
    apply (proj1 (sorted_In sort_key key_lt l1 b)) in Hb.
    apply (NoDup_map_injective N Ha Hb).
    unfold key_le in Hab, Hba. apply negb_true_iff in Hab, Hba.
    now apply key_lt_connex.
  - rewrite (sorted_items_perm l1), P. symmetry. apply sorted_items_perm.
  - apply sorted_ordered; [exact key_lt_le | exact key_le_trans].
  - apply sorted_ordered; [exact key_lt_le | exact key_le_trans].
Qed.

(** X9: when no two entries of a directory have the same sort key, that
    is, the same kind and the same lowercase name, the order in which the
    operating system lists them does not matter: any rearrangement of the
    listing gives the same sorted items, the same tree and the same
    contents. *)
Theorem listing_order_does_not_matter (l1 l2 : list entry) :
  Permutation l1 l2 -> NoDup (map sort_key l1) ->
  sorted_items l1 = sorted_items l2
  /\ (forall n prefix is_last output_lines,
         generate_tree_structure (Dir n l1) prefix is_last output_lines
         = generate_tree_structure (Dir n l2) prefix is_last output_lines)
  /\ (forall n rel,
         collect_file_contents (Dir n l1) rel = collect_file_contents (Dir n l2) rel).
Proof.
  intros P N. pose proof (sorted_items_unique P N) as E.
  split; [exact E|]. split.
  - intros. rewrite !generate_tree_structure_Dir. cbv zeta. now rewrite E.
  - intros. rewrite !collect_file_contents_Dir. now rewrite E.
Qed.

End ListingOrder.

Lemma listing_order_does_not_matter_witness :
  sorted_items (R := posix) example_siblings
  = sorted_items (R := posix) (rev example_siblings).
Proof.
  apply (listing_order_does_not_matter (R := posix)
           (l1 := example_siblings) (l2 := rev example_siblings)).
  - apply Permutation_rev.
  - vm_compute. repeat constructor; simpl; intuition discriminate.
Defined.

(** ** Tree builder: further properties *)

Lemma list_sum_perm (l1 l2 : list nat) :
  Permutation l1 l2 -> list_sum l1 = list_sum l2.
Proof. induction 1; simpl; lia. Qed.

Lemma length_flat_map A B (f : A -> list B) (l : list A) :
  length (flat_map f l) = list_sum (map (fun x => length (f x)) l).
Proof.
  induction l as [|x l IH]; simpl; [reflexivity|]. now rewrite length_app, IH.
Qed.

Lemma list_sum_filter A (p : A -> bool) (f : A -> nat) (l : list A) :
  list_sum (map f (filter p l)) = list_sum (map (fun x => if p x then f x else 0) l).
Proof.
  induction l as [|x l IH]; simpl; [reflexivity|].
  destruct (p x); simpl; now rewrite IH.
Qed.

Lemma list_sum_ext_in A (f g : A -> nat) (l : list A) :
  (forall x, In x l -> f x = g x) -> list_sum (map f l) = list_sum (map g l).
Proof.
  induction l as [|x l IH]; intros H; simpl; [reflexivity|].
  rewrite (H x) by now left. f_equal. apply IH. intros y Hy. apply H. now right.
Qed.

Lemma enumerate_snd A (l : list A) : map snd (enumerate l) = l.
Proof.
  unfold enumerate. generalize 0 as start.
  induction l as [|x l IH]; intros start; simpl; [reflexivity|]. now rewrite IH.
Qed.

Section TreeFacts.
Context {R : Runtime}.

Lemma tree_row_length (prefix : str) (is_last_item : bool) (x : entry) :
  length (tree_row prefix is_last_item x)
  = 1 + (if is_dir x
         then length (generate_tree_structure
                        x (prefix ++ (if is_last_item then TREE_SPACE else TREE_VERTICAL))
                        is_last_item [])
         else 0).
Proof. unfold tree_row. now destruct (is_dir x). Qed.

Lemma generate_tree_structure_length (x : entry) :
  forall prefix is_last,
    length (generate_tree_structure x prefix is_last []) = tree_size x.
Proof.
  induction x as [n st data|n listing IH|n [m|m]|n] using entry_induction;
    intros prefix is_last; try reflexivity.
  rewrite generate_tree_structure_rows. cbv zeta. cbn [app tree_size].
  rewrite length_flat_map.
  set (len := length (filter shown (sorted_items listing))).
  rewrite (list_sum_ext_in
             (g := fun ix : nat * entry =>
                     (fun y => 1 + (if is_dir y then tree_size y else 0)) (snd ix))).
  - rewrite <- (map_map snd (fun y => 1 + (if is_dir y then tree_size y else 0))).
    rewrite enumerate_snd, list_sum_filter.
    apply list_sum_perm, Permutation_map, sorted_items_perm.
  - intros [i y] Hy. cbn [fst snd]. rewrite tree_row_length.
    apply enumerate_In, filter_In, proj1 in Hy.
    apply (proj1 (sorted_In sort_key key_lt listing y)) in Hy.
    rewrite Forall_forall in IH. destruct (is_dir y); [|reflexivity].
    now rewrite (IH y Hy).
Qed.

(** X10: the tree builder only appends: the lines it is given stay as they
    are, in front of the lines it would give without them; how many lines
    it adds depends on the file system alone, one for each entry below the
    root that is neither a skipped directory nor in one, and one for each
    path that cannot be listed. *)
Theorem tree_builder_appends_tree_size (root : entry) (prefix : str)
        (is_last : bool) (output_lines : list str) :
  generate_tree_structure root prefix is_last output_lines
  = output_lines ++ generate_tree_structure root prefix is_last []
  /\ length (generate_tree_structure root prefix is_last output_lines)
     = length output_lines + tree_size root.
Proof.
  pose proof (generate_tree_structure_appends root prefix is_last output_lines) as E.
  split; [exact E|].
  now rewrite E, length_app, generate_tree_structure_length.
Qed.

Lemma list_sum_zero (l : list nat) : list_sum l = 0 <-> Forall (fun n => n = 0) l.
Proof.
  induction l as [|n l IH]; simpl.
  - split; [constructor | reflexivity].
  - split.
    + intros H. constructor; [lia | apply IH; lia].
    + intros H. inversion H as [|? ? -> H']; subst. now apply IH.
Qed.

(** X11: the tree of a directory is empty exactly when every entry of the
    directory is a skipped directory, and then nothing is collected either;
    the tree of a path that cannot be listed is never empty. *)
Theorem empty_tree_iff_all_skipped (n : str) (listing : list entry) :
  (tree_of (Dir n listing) = [] <-> forall x, In x listing -> shown x = false)
  /\ ((forall x, In x listing -> shown x = false) -> contents_of (Dir n listing) = [])
  /\ (forall x, match x with Dir _ _ => True | _ => tree_of x <> [] end).
Proof.
  split; [|split].
  - unfold tree_of. rewrite <- length_zero_iff_nil, generate_tree_structure_length.
    cbn [tree_size]. rewrite list_sum_zero, Forall_map, Forall_forall.
    split; intros H x Hx; specialize (H x Hx).
    + destruct (shown x); [discriminate | reflexivity].
    + now rewrite H.
  - intros H. unfold contents_of. rewrite collect_file_contents_items.
    rewrite <- (flat_map_filter_nil (f := collect_item []) (p := shown))
      by apply collect_item_hidden.
    assert (E : filter shown (sorted_items listing) = []); [|now rewrite E].
    destruct (filter shown (sorted_items listing)) as [|y l] eqn:E; [reflexivity|].
    assert (Hy : In y (filter shown (sorted_items listing))) by (rewrite E; now left).
    apply filter_In in Hy. destruct Hy as [Hy Hs].
    apply (proj1 (sorted_In sort_key key_lt listing y)) in Hy.
    rewrite (H y Hy) in Hs. discriminate.
  - intros x. unfold tree_of. destruct x as [m st data|m l|m [e|e]|m];
      try exact I; cbn [generate_tree_structure app]; discriminate.
Qed.

End TreeFacts.

Lemma empty_tree_iff_all_skipped_witness :
  contents_of (R := posix) (Dir (lit "repo") [Dir (lit ".git") [text_file "a.py" "x"]]) = [].
Proof.
  apply (proj1 (proj2 (empty_tree_iff_all_skipped (R := posix) (lit "repo")
                         [Dir (lit ".git") [text_file "a.py" "x"]]))).
  intros x [<-|[]]. reflexivity.
Defined.

Section TreeLines.
Context {R : Runtime}.

Lemma indent_of_cons (flag : bool) (flags : list bool) :
  indent_of (flag :: flags)
  = (if flag then TREE_SPACE else TREE_VERTICAL) ++ indent_of flags.
Proof. reflexivity. Qed.

Lemma below_indented root parts x :
  below root parts x -> shown x = true ->
  forall prefix is_last output_lines,
  exists flags is_last_item,
    S (length flags) = length parts
    /\ In (prefix ++ indent_of flags
                  ++ (if is_last_item : bool then TREE_LAST else TREE_BRANCH)
                  ++ name x ++ (if is_dir x then lit "/" else []))
          (generate_tree_structure root prefix is_last output_lines).
Proof.
  intros Hb Hx. induction Hb as [n listing x Hin|n listing d parts x Hin Hd Hb IH];
    intros prefix is_last out; rewrite generate_tree_structure_rows; cbv zeta.
  - assert (Hi : In x (filter shown (sorted_items listing)))
      by (apply filter_In; split;
          [now apply (proj2 (sorted_In sort_key key_lt listing _))|assumption]).
    apply In_enumerate in Hi. destruct Hi as [i Hi].
    exists [], (Nat.eqb i (length (filter shown (sorted_items listing)) - 1)).
    split; [reflexivity|]. apply in_or_app. right.
    apply in_flat_map. exists (i, x). split; [exact Hi|]. apply tree_row_head.
  - assert (Hi : In d (filter shown (sorted_items listing)))
      by (apply filter_In; split;
          [now apply (proj2 (sorted_In sort_key key_lt listing _))|assumption]).
    apply In_enumerate in Hi. destruct Hi as [i Hi].
    set (last := Nat.eqb i (length (filter shown (sorted_items listing)) - 1)).
    destruct (IH Hx (prefix ++ (if last then TREE_SPACE else TREE_VERTICAL)) last [])
      as (flags & l & Hlen & Hl).
    exists (last :: flags), l. split; [simpl; now rewrite Hlen|].
    apply in_or_app. right.
    apply in_flat_map. exists (i, d). split; [exact Hi|]. cbn [fst snd].
    unfold tree_row. rewrite (below_is_dir Hb). right.
    rewrite indent_of_cons. fold last. now rewrite <- !app_assoc in *.
Qed.

(** X12: the line of an entry below the root that is neither a skipped
    directory nor in one is indented by one token for each directory
    between the root and the entry: four spaces below a last item, a bar
    and three spaces below any other. *)
Theorem tree_line_indentation (root : entry) (parts : list str) (x : entry) :
  below root parts x -> shown x = true ->
  exists flags is_last_item,
    S (length flags) = length parts
    /\ length (indent_of flags) = 4 * (length parts - 1)
    /\ In (indent_of flags
             ++ (if is_last_item : bool then TREE_LAST else TREE_BRANCH)
             ++ name x ++ (if is_dir x then lit "/" else []))
          (tree_of root).
Proof.
  intros Hb Hx. destruct (below_indented Hb Hx [] true []) as (flags & l & Hlen & H).
  exists flags, l. split; [exact Hlen|]. split; [|exact H].
  rewrite <- Hlen. simpl. rewrite Nat.sub_0_r. clear.
  induction flags as [|f flags IH]; [reflexivity|].
  rewrite indent_of_cons, length_app, IH. destruct f; simpl; lia.
Qed.

(** What a line of the tree is: the line of an entry, or a marker. *)
Lemma tree_line_origin (root : entry) :
  forall prefix is_last line,
    In line (generate_tree_structure root prefix is_last []) ->
    (exists parts x flags is_last_item,
        below root parts x /\ shown x = true
        /\ S (length flags) = length parts
        /\ line = prefix ++ indent_of flags
                         ++ (if is_last_item : bool then TREE_LAST else TREE_BRANCH)
                         ++ name x ++ (if is_dir x then lit "/" else []))
    \/ (exists flags text,
           line = prefix ++ indent_of flags ++ text
           /\ (text = lit "[Permission Denied]"
               \/ exists msg, text = lit "[Error: " ++ msg ++ lit "]")).
Proof.
  induction root as [n st data|n listing IH|n [m|m]|n] using entry_induction;
    intros prefix is_last line H.
  - right. destruct H as [<-|[]]. exists [], (lit "[Error: " ++ strerror_notdir n ++ lit "]").
    split; [reflexivity | right; eauto].
  - rewrite generate_tree_structure_rows in H. cbv zeta in H. cbn [app] in H.
    apply in_flat_map in H. destruct H as ([i y] & Hy & H). cbn [fst snd] in H.
    set (last := Nat.eqb i (length (filter shown (sorted_items listing)) - 1)) in *.
    apply enumerate_In, filter_In in Hy. destruct Hy as [Hy Hs].
    apply (proj1 (sorted_In sort_key key_lt listing y)) in Hy.
    unfold tree_row in H. destruct (is_dir y) eqn:Dy.
    + destruct H as [<-|H].
      * left. exists [name y], y, [], last. rewrite Dy.
        repeat split; [now apply below_item | assumption].
      * rewrite Forall_forall in IH.
        destruct (IH y Hy _ _ _ H)
          as [(parts & x & flags & l & Hb & Hx & Hlen & ->)|(flags & text & -> & Ht)].
        -- left. exists (name y :: parts), x, (last :: flags), l.
           repeat split; [now apply below_deeper | assumption | simpl; now rewrite Hlen |].
           rewrite indent_of_cons. now rewrite <- !app_assoc.
        -- right. exists (last :: flags), text. split; [|exact Ht].
           rewrite indent_of_cons. now rewrite <- !app_assoc.
    + destruct H as [<-|[]]. left. exists [name y], y, [], last. rewrite Dy.
      repeat split; [now apply below_item | assumption | now rewrite app_nil_r].
  - right. destruct H as [<-|[]]. exists [], (lit "[Permission Denied]").
    split; [reflexivity | now left].
  - right. destruct H as [<-|[]]. exists [], (lit "[Error: " ++ m ++ lit "]").
    split; [reflexivity | right; eauto].
  - right. destruct H as [<-|[]]. exists [], (lit "[Error: " ++ strerror_notdir n ++ lit "]").
    split; [reflexivity | right; eauto].
Qed.

(** X13: the tree has no line but these: the line of an entry below the
    root that is neither a skipped directory nor in one, indented by its
    depth, and the markers [[Permission Denied]] and [[Error: ...]]; nothing
    that lies in a skipped directory gets a line. *)
Theorem tree_lines_are_entries_or_markers (root : entry) (line : str) :
  In line (tree_of root) ->
  (exists parts x flags is_last_item,
      below root parts x /\ shown x = true
      /\ S (length flags) = length parts
      /\ line = indent_of flags
                  ++ (if is_last_item : bool then TREE_LAST else TREE_BRANCH)
                  ++ name x ++ (if is_dir x then lit "/" else []))
  \/ (exists flags text,
         line = indent_of flags ++ text
         /\ (text = lit "[Permission Denied]"
             \/ exists msg, text = lit "[Error: " ++ msg ++ lit "]")).
Proof.
  intros H. exact (tree_line_origin H).
Qed.

End TreeLines.

Lemma tree_line_indentation_witness :
  exists flags is_last_item,
    S (length flags) = 2
    /\ length (indent_of flags) = 4
    /\ In (indent_of flags
             ++ (if is_last_item : bool then TREE_LAST else TREE_BRANCH)
             ++ lit "main.py" ++ [])
          (tree_of (R := posix) example_repo).
Proof.
  apply (tree_line_indentation
           (R := posix) (root := example_repo)
           (parts := [lit "src"; lit "main.py"])
           (x := text_file "main.py" "print(1)")); [|reflexivity].
  apply (@below_deeper (lit "repo") _ (Dir (lit "src") [text_file "main.py" "print(1)"])
                       [lit "main.py"]);
    [simpl; tauto | reflexivity |].
  apply (@below_item (lit "src") _ (text_file "main.py" "print(1)")). simpl. tauto.
Defined.

Lemma tree_lines_are_entries_or_markers_witness :
  (exists parts x flags is_last_item,
      below example_guarded parts x /\ shown x = true
      /\ S (length flags) = length parts
      /\ TREE_BRANCH ++ lit "README"
         = indent_of flags
             ++ (if is_last_item : bool then TREE_LAST else TREE_BRANCH)
             ++ name x ++ (if is_dir x then lit "/" else []))
  \/ (exists flags text,
         TREE_BRANCH ++ lit "README" = indent_of flags ++ text
         /\ (text = lit "[Permission Denied]"
             \/ exists msg, text = lit "[Error: " ++ msg ++ lit "]")).
Proof.
  apply (tree_lines_are_entries_or_markers
           (R := posix) (root := example_guarded)).
  vm_compute. tauto.
Defined.

(** ** Content collector: further properties *)

Section CollectorFacts.
Context {R : Runtime}.



(** X15: every collected content is either clean text, with none of the
    characters the sanitizer removes and no carriage return, or the
    diagnostic of a file that could not be read, which carries the error's
    text as it is. *)
Theorem collected_content_clean_or_diagnostic (root : entry) (p c : str) :
  In (p, c) (contents_of root) ->
  (Forall (fun ch => xml_illegal ch = false) c /\ ~ In 13%N c)
  \/ exists msg, c = lit "[Error reading file: " ++ msg ++ lit "]".
Proof.
  intros H. apply collect_origin in H.
  destruct H as (parts & n & st & [msg|data] & _ & _ & _ & ->).
  - right. now exists msg.
  - left. destruct (read_bytes_text data) as [text ->].
    rewrite sanitize_xml_content_keep. split.
    + eapply Forall_impl; [|apply filter_all]. intros ch. apply negb_true_iff.
    + intros F. apply filter_In in F. destruct F as [F _].
      exact (universal_newlines_no_cr F).
Qed.


End CollectorFacts.


Lemma collected_content_clean_or_diagnostic_witness :
  (Forall (fun ch => xml_illegal ch = false) (lit "hello") /\ ~ In 13%N (lit "hello"))
  \/ exists msg, lit "hello" = lit "[Error reading file: " ++ msg ++ lit "]".
Proof.
  apply (collected_content_clean_or_diagnostic
           (R := posix) (root := example_guarded) (p := lit "README")).
  vm_compute. tauto.
Defined.


(** ** Exporters: further properties *)




Section WordFacts.
Context {R : Runtime}.
Variable docx_error : str -> option str.






End WordFacts.


Section WordRecovery.
Context {R : Runtime}.
Variable docx_error : str -> option str.




Lemma word_files_abort_header file_contents :
  forall doc index file e,
    In file file_contents ->
    docx_error (lit "File: " ++ fst file) = Some e ->
    exists e', word_files docx_error doc index file_contents = raise e'.
Proof.
  induction file_contents as [|f rest IH]; intros doc index file e Hin He;
    [destruct Hin|].
  cbn [word_files]. destruct Hin as [->|Hin].
  - destruct file as [rel content]. cbn [fst] in He.
    cbv beta iota delta [word_file]. unfold add_paragraph at 1.
    destruct (docx_error (repeat 9472%N 60)) as [e1|]; cbn [bind raise ret];
      [now exists e1|].
    unfold add_paragraph at 1. rewrite He. cbn [bind raise]. now exists e.
  - destruct (word_file docx_error doc index f) as [e'|doc']; cbn [bind].
    + now exists e'.
    + exact (IH doc' (S index) file e Hin He).
Qed.

(** X19: the header of a file is added outside the handler: if the library
    refuses the paragraph [File: <path>] of one collected file, as it can
    for a path that holds a control character, the Word exporter ends the
    run with an exception and returns no document. *)
Theorem word_export_aborts_on_header (cwd : str) (current_dir : entry)
        (relative_path content e : str) :
  In (relative_path, content) (contents_of current_dir) ->
  docx_error (lit "File: " ++ relative_path) = Some e ->
  exists e', generate_word_document docx_error cwd current_dir = raise e'.
Proof.
  intros Hin He. unfold generate_word_document.
  repeat (cbv beta zeta;
          match goal with
          | |- exists e', bind (word_files _ _ _ _) _ = _ =>
              let E := fresh "E" in
              edestruct word_files_abort_header as [e' E];
              [exact Hin | exact He |];
              rewrite E; now exists e'
          | |- exists e', bind ?m _ = _ =>
              let x := fresh "x" in
              destruct m as [x|x]; cbn [bind]; [now exists x|]
          end).
Qed.

End WordRecovery.


Lemma word_export_aborts_on_header_witness :
  contents_of (R := posix) example_control_name
  = [(lit "a" ++ [1%N] ++ lit ".py", lit "ok")]
  /\ tree_of (R := posix) example_control_name
     = [TREE_LAST ++ lit "a" ++ [1%N] ++ lit ".py"]
  /\ exists e',
      generate_word_document (R := posix) refuses_controls (lit "/home/repo")
                             example_control_name = raise e'.
Proof.
  split; [vm_compute; reflexivity|]. split; [vm_compute; reflexivity|].
  apply (word_export_aborts_on_header
           (R := posix) (docx_error := refuses_controls)
           (lit "/home/repo") (current_dir := example_control_name)
           (relative_path := lit "a" ++ [1%N] ++ lit ".py") (content := lit "ok")
           (e := lit "All strings must be XML compatible")).
  - vm_compute. now left.
  - vm_compute. reflexivity.
Defined.

Section PdfFacts.
Context {R : Runtime}.
Variable Paragraph_error : str -> option str.
Variable Preformatted_error : str -> option str.
Variable build_error : list block -> option str.






End PdfFacts.


(** ** Entry point: properties *)





Section MainFacts.
Context {R : Runtime}.
Variable docx_error : str -> option str.
Variable Paragraph_error : str -> option str.
Variable Preformatted_error : str -> option str.
Variable build_error : list block -> option str.



End MainFacts.

